(** * CUDA graph capture / update / replay (tiny-cuda-nn, [cuda_graph.h])

    A shallow embedding of [tcnn::CudaGraph], of the thread-local deque
    [s_current_captures] and of the scope guard returned by
    [CudaGraph::capture_guard], together with the properties of the
    capture state machine.

    The CUDA runtime is an external collaborator.  It is modelled as an
    arbitrary deterministic state machine over an abstract driver state
    [D]: every entry point takes its arguments and the driver state and
    returns its [cudaError_t], the values it stores through its out
    parameters, and the next driver state.  Every call is also appended,
    with the status it returned, to a trace, so that "a launch was
    submitted" or "the executable was destroyed" are statements about that
    trace.

    Managers live on a heap, by address; the deque holds addresses.  One
    host thread is modelled: the deque is thread-local, and the capture
    scopes of different threads never meet in it.  What C++ leaves
    undefined ([back()] on an empty deque, a member function called on no
    object) is the outcome [Undefined]. *)

From Stdlib Require Import String NArith List Lia.
From stdpp Require Import base option list gmap strings.

Set Default Proof Using "Type".

(** ** Handles, enumerations and constants of the CUDA headers *)

(** [cudaStream_t], [cudaGraph_t], [cudaGraphExec_t] and [CudaGraph*] are
    pointers: an address, with [nullptr] the address [0]. *)
Abbreviation pointer := N (only parsing).
Definition nullptr : pointer := 0%N.

(** [#define cudaStreamLegacy ((cudaStream_t)0x1)] *)
Definition cudaStreamLegacy : pointer := 1%N.

(** [cudaError_t] is a C enumeration; the enumerators the code tests for,
    and the one whose message is "driver shutting down", with their values
    in [driver_types.h]. *)
Abbreviation cudaError_t := N (only parsing).
Definition cudaSuccess : cudaError_t := 0%N.
Definition cudaErrorCudartUnloading : cudaError_t := 4%N.
Definition cudaErrorStreamCaptureImplicit : cudaError_t := 906%N.

Inductive cudaStreamCaptureStatus :=
| cudaStreamCaptureStatusNone
| cudaStreamCaptureStatusActive
| cudaStreamCaptureStatusInvalidated.

Inductive cudaStreamCaptureMode :=
| cudaStreamCaptureModeGlobal
| cudaStreamCaptureModeThreadLocal
| cudaStreamCaptureModeRelaxed.

(** [cudaGraphExecUpdateResult]; [cudaGraphExecUpdateSuccess = 0x0], every
    other enumerator names a reason for which the update was refused. *)
Abbreviation cudaGraphExecUpdateResult := N (only parsing).
Definition cudaGraphExecUpdateSuccess : cudaGraphExecUpdateResult := 0%N.

Definition is_null (p : pointer) : bool := N.eqb p nullptr.

Definition capture_status_is_none (s : cudaStreamCaptureStatus) : bool :=
  match s with cudaStreamCaptureStatusNone => true | _ => false end.

(** ** The runtime as seen from the host thread *)

(** One constructor per runtime entry point called in [cuda_graph.h], with
    the arguments passed by value. *)
Inductive cuda_call :=
| StreamIsCapturing (stream : pointer)
| GraphDestroy (graph : pointer)
| StreamBeginCapture (stream : pointer) (mode : cudaStreamCaptureMode)
| StreamEndCapture (stream : pointer)
| DeviceSynchronize
| GraphExecDestroy (exec : pointer)
| GraphExecUpdate (exec graph : pointer)
| GraphInstantiate (graph : pointer)
| GraphLaunch (exec stream : pointer).

(** The behaviour of the runtime.  Out parameters ([&capture_status],
    [&m_graph], [&update_result], [&m_graph_instance]) are returned next to
    the status: the value found in the pointed-to variable after the call.
    Both preprocessor branches on [CUDA_VERSION] read the same
    [cudaGraphExecUpdateResult] enumerator, once from the result structure
    and once directly; [cudaGraphExecUpdate] returns that enumerator. *)
Record cuda_runtime (D : Type) := {
  cudaStreamIsCapturing : pointer -> D -> cudaError_t * cudaStreamCaptureStatus * D;
  cudaGraphDestroy : pointer -> D -> cudaError_t * D;
  cudaStreamBeginCapture : pointer -> cudaStreamCaptureMode -> D -> cudaError_t * D;
  cudaStreamEndCapture : pointer -> D -> cudaError_t * pointer * D;
  cudaDeviceSynchronize : D -> cudaError_t * D;
  cudaGraphExecDestroy : pointer -> D -> cudaError_t * D;
  cudaGraphExecUpdate : pointer -> pointer -> D -> cudaError_t * cudaGraphExecUpdateResult * D;
  cudaGraphInstantiate : pointer -> D -> cudaError_t * pointer * D;
  cudaGraphLaunch : pointer -> pointer -> D -> cudaError_t * D
}.
Arguments cudaStreamIsCapturing {D} _ _ _.
Arguments cudaGraphDestroy {D} _ _ _.
Arguments cudaStreamBeginCapture {D} _ _ _ _.
Arguments cudaStreamEndCapture {D} _ _ _.
Arguments cudaDeviceSynchronize {D} _ _.
Arguments cudaGraphExecDestroy {D} _ _ _.
Arguments cudaGraphExecUpdate {D} _ _ _ _.
Arguments cudaGraphInstantiate {D} _ _ _.
Arguments cudaGraphLaunch {D} _ _ _ _.

(** ** Exceptions *)

(** Both kinds of exception raised in [cuda_graph.h] are
    [std::runtime_error]s: the one thrown by [CUDA_CHECK_THROW(x)] when [x]
    evaluates to a status other than [cudaSuccess], kept symbolic here as
    the checked expression and that status, and the one the finalize action
    throws itself, with its message.  [what] below gives the text of
    either. *)
Inductive exception :=
| cuda_check_error (expr : string) (result : cudaError_t)
| runtime_error (message : string).

Inductive outcome (A : Type) :=
| Ok (a : A)
| Throw (e : exception)
| Undefined.
Arguments Ok {A} a.
Arguments Throw {A} e.
Arguments Undefined {A}.

(** ** The state and exception monad *)

Definition M (S A : Type) : Type := S -> outcome A * S.

Definition ret {S A} (a : A) : M S A := fun s => (Ok a, s).

Definition bind {S A B} (m : M S A) (k : A -> M S B) : M S B :=
  fun s =>
    match m s with
    | (Ok a, s') => k a s'
    | (Throw e, s') => (Throw e, s')
    | (Undefined, s') => (Undefined, s')
    end.

Definition throw {S A} (e : exception) : M S A := fun s => (Throw e, s).

Definition undefined {S A} : M S A := fun s => (Undefined, s).

(** [try { m } catch (const std::runtime_error& error) { handler }] *)
Definition try_catch {S A} (m : M S A) (handler : exception -> M S A) : M S A :=
  fun s =>
    match m s with
    | (Throw e, s') => handler e s'
    | r => r
    end.

Declare Scope cuda_scope.
Delimit Scope cuda_scope with cuda.
Notation "'let*' x := m 'in' k" := (bind m (fun x => k))
  (at level 10, x name, m at level 100, k at level 200) : cuda_scope.
Notation "'let*' ' p := m 'in' k" := (bind m (fun x => match x with p => k end))
  (at level 10, p pattern, m at level 100, k at level 200) : cuda_scope.
Notation "m ;; k" := (bind m (fun _ => k))
  (at level 100, k at level 200, right associativity) : cuda_scope.
Local Open Scope cuda_scope.

(** ** Objects and thread state *)

Record CudaGraph := {
  m_graph : pointer;
  m_graph_instance : pointer;
  m_synchronize_when_capture_done : bool
}.

(** A freshly constructed manager (the default member initialisers). *)
Definition CudaGraph_new : CudaGraph :=
  {| m_graph := nullptr; m_graph_instance := nullptr;
     m_synchronize_when_capture_done := false |}.

Definition with_m_graph (g : pointer) (o : CudaGraph) : CudaGraph :=
  {| m_graph := g; m_graph_instance := m_graph_instance o;
     m_synchronize_when_capture_done := m_synchronize_when_capture_done o |}.

Definition with_m_graph_instance (e : pointer) (o : CudaGraph) : CudaGraph :=
  {| m_graph := m_graph o; m_graph_instance := e;
     m_synchronize_when_capture_done := m_synchronize_when_capture_done o |}.

Definition with_m_synchronize (b : bool) (o : CudaGraph) : CudaGraph :=
  {| m_graph := m_graph o; m_graph_instance := m_graph_instance o;
     m_synchronize_when_capture_done := b |}.

(** What the host thread can observe besides the managers themselves: the
    thread-local deque [s_current_captures] (front first, back last), the
    driver, the trace of runtime calls and the warnings logged. *)
Record thread_state (D : Type) := {
  s_current_captures : list pointer;
  driver : D;
  api_calls : list (cuda_call * cudaError_t);
  warnings : list string
}.
Arguments s_current_captures {D} _.
Arguments driver {D} _.
Arguments api_calls {D} _.
Arguments warnings {D} _.

(** The managers alive on the heap, by address, and the thread state. *)
Record world (D : Type) := {
  heap : gmap N CudaGraph;
  thread : thread_state D
}.
Arguments heap {D} _.
Arguments thread {D} _.

Section Model.

Context {D : Type}.

Definition with_captures (l : list pointer) (t : thread_state D) : thread_state D :=
  {| s_current_captures := l; driver := driver t;
     api_calls := api_calls t; warnings := warnings t |}.

Definition with_call (c : cuda_call) (r : cudaError_t) (d : D)
    (t : thread_state D) : thread_state D :=
  {| s_current_captures := s_current_captures t; driver := d;
     api_calls := api_calls t ++ [(c, r)]; warnings := warnings t |}.

Definition with_warning (msg : string) (t : thread_state D) : thread_state D :=
  {| s_current_captures := s_current_captures t; driver := driver t;
     api_calls := api_calls t; warnings := warnings t ++ [msg] |}.

(** The body of a member function runs on the fields of [*this] and on the
    thread state. *)
Definition frame : Type := CudaGraph * thread_state D.

Variable rt : cuda_runtime D.

(** *** Runtime calls *)

(** A call without out parameter, and one with an out parameter. *)
Definition call (c : cuda_call) (f : D -> cudaError_t * D) : M frame cudaError_t :=
  fun s =>
    let '(r, d) := f (driver (snd s)) in
    (Ok r, (fst s, with_call c r d (snd s))).

Definition call_out {A} (c : cuda_call) (f : D -> cudaError_t * A * D)
    : M frame (cudaError_t * A) :=
  fun s =>
    let '(r, a, d) := f (driver (snd s)) in
    (Ok (r, a), (fst s, with_call c r d (snd s))).

(** Modelled from the spec: [CUDA_CHECK_THROW] is a macro of
    [common_host.h].  A status other than [cudaSuccess] is a hard error of
    the platform and is raised to the caller at once; [result] is the status
    the checked expression [expr] evaluated to. *)
Definition CUDA_CHECK_THROW {S} (expr : string) (result : cudaError_t) : M S unit :=
  if N.eqb result cudaSuccess then ret tt else throw (cuda_check_error expr result).

(** *** Field and deque access *)

Definition load {A} (field : CudaGraph -> A) : M frame A :=
  fun s => (Ok (field (fst s)), s).

Definition store (update : CudaGraph -> CudaGraph) : M frame unit :=
  fun s => (Ok tt, (update (fst s), snd s)).

(** [current_captures().push_back(p)] *)
Definition push_back (p : pointer) : M frame unit :=
  fun s => (Ok tt, (fst s, with_captures (s_current_captures (snd s) ++ [p]) (snd s))).

(** [current_captures().back()]; undefined behaviour on an empty deque. *)
Definition back : M frame pointer :=
  fun s =>
    match last (s_current_captures (snd s)) with
    | Some p => ret p s
    | None => undefined s
    end.

(** [current_captures().pop_back()] *)
Definition pop_back : M frame unit :=
  fun s => (Ok tt, (fst s, with_captures (removelast (s_current_captures (snd s))) (snd s))).

(** [current_capture()]: [nullptr] on an empty deque, its front otherwise. *)
Definition current_capture (t : thread_state D) : pointer :=
  match s_current_captures t with
  | [] => nullptr
  | p :: _ => p
  end.

(** A member function called on [this]: undefined behaviour unless a manager
    lives at that address; the fields it leaves are those of the object
    afterwards, also when it throws. *)
Definition on_object {A} (this : pointer) (body : M frame A) : M (world D) A :=
  fun w =>
    match heap w !! this with
    | None => (Undefined, w)
    | Some o =>
        let '(r, (o', t')) := body (o, thread w) in
        (r, {| heap := <[this := o']> (heap w); thread := t' |})
    end.

(** *** The scope guard *)

(** Modelled from the spec: [ScopeGuard] is declared in [common_host.h].  It
    holds a callback or nothing; [ScopeGuard{}] holds nothing; leaving the
    scope runs the callback once. *)
Definition ScopeGuard : Type := option (M (world D) unit).

Definition ScopeGuard_release (g : ScopeGuard) : M (world D) unit :=
  match g with
  | Some callback => callback
  | None => ret tt
  end.

(** *** [CudaGraph::capture_guard] *)

Definition ordering_violation : exception :=
  runtime_error "CudaGraph: must end captures in reverse order of creation.".

(** The lambda handed to the guard, with [this] and [stream] captured. *)
Definition finalize_body (this stream : pointer) : M frame unit :=
  let* '(r, g) := call_out (StreamEndCapture stream) (cudaStreamEndCapture rt stream) in
  store (with_m_graph g) ;;
  CUDA_CHECK_THROW "cudaStreamEndCapture(stream, &m_graph)" r ;;
  let* top := back in
  if negb (N.eqb top this) then throw ordering_violation else
  pop_back ;;
  let* sync := load m_synchronize_when_capture_done in
  (if sync then
     let* r := call DeviceSynchronize (cudaDeviceSynchronize rt) in
     CUDA_CHECK_THROW "cudaDeviceSynchronize()" r ;;
     store (with_m_synchronize false)
   else ret tt) ;;
  let* g := load m_graph in
  if is_null g then
    let* e := load m_graph_instance in
    (if negb (is_null e) then
       let* r := call (GraphExecDestroy e) (cudaGraphExecDestroy rt e) in
       CUDA_CHECK_THROW "cudaGraphExecDestroy(m_graph_instance)" r
     else ret tt) ;;
    store (with_m_graph nullptr) ;;
    store (with_m_graph_instance nullptr)
  else
    let* e := load m_graph_instance in
    (if negb (is_null e) then
       let* '(r, update_result) :=
         call_out (GraphExecUpdate e g) (cudaGraphExecUpdate rt e g) in
       CUDA_CHECK_THROW "cudaGraphExecUpdate(m_graph_instance, m_graph, &update_result)" r ;;
       if negb (N.eqb update_result cudaGraphExecUpdateSuccess) then
         let* r := call (GraphExecDestroy e) (cudaGraphExecDestroy rt e) in
         CUDA_CHECK_THROW "cudaGraphExecDestroy(m_graph_instance)" r ;;
         store (with_m_graph_instance nullptr)
       else ret tt
     else ret tt) ;;
    let* e := load m_graph_instance in
    (if is_null e then
       let* '(r, e') := call_out (GraphInstantiate g) (cudaGraphInstantiate rt g) in
       store (with_m_graph_instance e') ;;
       CUDA_CHECK_THROW "cudaGraphInstantiate(&m_graph_instance, m_graph, NULL, NULL, 0)" r
     else ret tt) ;;
    let* e := load m_graph_instance in
    let* r := call (GraphLaunch e stream) (cudaGraphLaunch rt e stream) in
    CUDA_CHECK_THROW "cudaGraphLaunch(m_graph_instance, stream)" r.

Definition finalize (this stream : pointer) : M (world D) unit :=
  on_object this (finalize_body this stream).

Definition capture_guard_body (this stream : pointer) : M frame ScopeGuard :=
  if N.eqb stream nullptr || N.eqb stream cudaStreamLegacy then ret None else
  let* '(r, capture_status) :=
    call_out (StreamIsCapturing stream) (cudaStreamIsCapturing rt stream) in
  CUDA_CHECK_THROW "cudaStreamIsCapturing(stream, &capture_status)" r ;;
  if negb (capture_status_is_none capture_status) then ret None else
  let* '(capture_result, capture_status) :=
    call_out (StreamIsCapturing cudaStreamLegacy) (cudaStreamIsCapturing rt cudaStreamLegacy) in
  if N.eqb capture_result cudaErrorStreamCaptureImplicit then ret None else
  CUDA_CHECK_THROW "capture_result" capture_result ;;
  if negb (capture_status_is_none capture_status) then ret None else
  let* g := load m_graph in
  (if negb (is_null g) then
     let* r := call (GraphDestroy g) (cudaGraphDestroy rt g) in
     CUDA_CHECK_THROW "cudaGraphDestroy(m_graph)" r ;;
     store (with_m_graph nullptr)
   else ret tt) ;;
  let* r := call (StreamBeginCapture stream cudaStreamCaptureModeRelaxed)
                 (cudaStreamBeginCapture rt stream cudaStreamCaptureModeRelaxed) in
  CUDA_CHECK_THROW "cudaStreamBeginCapture(stream, cudaStreamCaptureModeRelaxed)" r ;;
  push_back this ;;
  ret (Some (finalize this stream)).

Definition capture_guard (this stream : pointer) : M (world D) ScopeGuard :=
  on_object this (capture_guard_body this stream).

(** *** [CudaGraph::reset] and [CudaGraph::schedule_synchronize] *)

Definition reset_body : M frame unit :=
  let* g := load m_graph in
  (if negb (is_null g) then
     let* r := call (GraphDestroy g) (cudaGraphDestroy rt g) in
     CUDA_CHECK_THROW "cudaGraphDestroy(m_graph)" r ;;
     store (with_m_graph nullptr)
   else ret tt) ;;
  let* e := load m_graph_instance in
  if negb (is_null e) then
    let* r := call (GraphExecDestroy e) (cudaGraphExecDestroy rt e) in
    CUDA_CHECK_THROW "cudaGraphExecDestroy(m_graph_instance)" r ;;
    store (with_m_graph_instance nullptr)
  else ret tt.

Definition reset (this : pointer) : M (world D) unit :=
  on_object this reset_body.

Definition schedule_synchronize_body : M frame unit :=
  store (with_m_synchronize true).

Definition schedule_synchronize (this : pointer) : M (world D) unit :=
  on_object this schedule_synchronize_body.

(** *** [CudaGraph::~CudaGraph] *)

(** The text of [what()] for an exception thrown by [CUDA_CHECK_THROW]: the
    macro is defined in [common_host.h], and the text it builds from the
    checked expression and from [cudaGetErrorString] is a parameter of the
    model. *)
Variable cuda_check_what : string -> cudaError_t -> string.

Definition what (e : exception) : string :=
  match e with
  | cuda_check_error expr result => cuda_check_what expr result
  | runtime_error message => message
  end.

(** [std::string::find(needle) == std::string::npos] *)
Definition find_is_npos (haystack needle : string) : bool :=
  match String.index 0 needle haystack with
  | Some _ => false
  | None => true
  end.

(** Modelled from the spec: [log_warning] is the host-side logging of
    [common_host.h], an external collaborator; the text it is given is
    appended to [warnings]. *)
Definition log_warning (text : string) : M frame unit :=
  fun s => (Ok tt, (fst s, with_warning text (snd s))).

Definition destructor_body : M frame unit :=
  try_catch reset_body (fun error =>
    if find_is_npos (what error) "driver shutting down" then
      log_warning (String.append "Could not destroy cuda graph: " (what error))
    else ret tt).

Definition destructor (this : pointer) : M (world D) unit :=
  on_object this destructor_body.

(** *** Nested capture scopes *)

(** [capture_guard] on each manager of [managers] in turn, on the stream
    [stream_of] gives it; the guards are returned in the order of the calls. *)
Fixpoint capture_all (stream_of : pointer -> pointer) (managers : list pointer)
    : M (world D) (list ScopeGuard) :=
  match managers with
  | [] => ret []
  | m :: rest =>
      let* g := capture_guard m (stream_of m) in
      let* gs := capture_all stream_of rest in
      ret (g :: gs)
  end.

(** The guards of [guards] leave their scope one after the other; an
    exception ends the run. *)
Fixpoint release_all (guards : list ScopeGuard) : M (world D) unit :=
  match guards with
  | [] => ret tt
  | g :: rest => ScopeGuard_release g ;; release_all rest
  end.

(** A runtime on which nothing is being captured yet and no call fails. *)
Record permissive : Prop := {
  permissive_query : forall s d,
    fst (cudaStreamIsCapturing rt s d) = (cudaSuccess, cudaStreamCaptureStatusNone);
  permissive_destroy : forall g d, fst (cudaGraphDestroy rt g d) = cudaSuccess;
  permissive_begin : forall s m d, fst (cudaStreamBeginCapture rt s m d) = cudaSuccess;
  permissive_end : forall s d, fst (fst (cudaStreamEndCapture rt s d)) = cudaSuccess;
  permissive_synchronize : forall d, fst (cudaDeviceSynchronize rt d) = cudaSuccess;
  permissive_exec_destroy : forall e d, fst (cudaGraphExecDestroy rt e d) = cudaSuccess;
  permissive_update : forall e g d, fst (fst (cudaGraphExecUpdate rt e g d)) = cudaSuccess;
  permissive_instantiate : forall g d, fst (fst (cudaGraphInstantiate rt g d)) = cudaSuccess;
  permissive_launch : forall e s d, fst (cudaGraphLaunch rt e s d) = cudaSuccess
}.

End Model.

Arguments frame D : clear implicits.
Arguments ScopeGuard D : clear implicits.

(** ** Readings of the trace and of the deque *)

(** The most recently opened capture that is still active: the back of the
    deque, or [nullptr] when no capture is active. *)
Definition innermost_capture {D} (t : thread_state D) : pointer :=
  default nullptr (last (s_current_captures t)).

(** A manager "holding a stale executable with no valid template". *)
Definition stale_executable (o : CudaGraph) : bool :=
  negb (is_null (m_graph_instance o)) && is_null (m_graph o).

(** "A pre-existing template is discarded only in the case that the manager
    is holding a stale executable": if the run of [capture_guard] from [w]
    destroys the graph held by the manager at [this], that manager was
    holding a stale executable. *)
Definition discards_only_when_stale {D} (run : M (world D) (ScopeGuard D))
    (this : pointer) (w : world D) : Prop :=
  forall o, heap w !! this = Some o ->
    (GraphDestroy (m_graph o), cudaSuccess) ∈ api_calls (thread (snd (run w))) ->
    stale_executable o = true.

Definition is_synchronize (c : cuda_call * cudaError_t) : bool :=
  match fst c with DeviceSynchronize => true | _ => false end.

Definition is_launch (c : cuda_call * cudaError_t) : bool :=
  match fst c with GraphLaunch _ _ => true | _ => false end.

Definition is_instantiate (c : cuda_call * cudaError_t) : bool :=
  match fst c with GraphInstantiate _ => true | _ => false end.

(** How many entries of a trace satisfy [p]. *)
Definition count (p : cuda_call * cudaError_t -> bool)
    (trace : list (cuda_call * cudaError_t)) : nat :=
  length (List.filter p trace).

(** From [w] to [w'] the host was not made to wait for the device, and the
    manager at [this] ends with its synchronization flag clear. *)
Definition synchronize_free {D} (this : pointer) (w w' : world D) : Prop :=
  count is_synchronize (api_calls (thread w')) =
    count is_synchronize (api_calls (thread w)) /\
  exists o', heap w' !! this = Some o' /\
    m_synchronize_when_capture_done o' = false.

(** The entries [cudaDeviceSynchronize] adds to the trace of a finalize
    action that finds the flag [sync] and whose synchronization succeeds. *)
Definition synchronize_trace (sync : bool) : list (cuda_call * cudaError_t) :=
  if sync then [(DeviceSynchronize, cudaSuccess)] else [].

(** Which entry point an entry of the trace is a call of, and whether the
    call returned [cudaSuccess]. *)
Definition is_query (c : cuda_call * cudaError_t) : bool :=
  match fst c with StreamIsCapturing _ => true | _ => false end.

Definition is_graph_destroy (c : cuda_call * cudaError_t) : bool :=
  match fst c with GraphDestroy _ => true | _ => false end.

Definition is_begin_capture (c : cuda_call * cudaError_t) : bool :=
  match fst c with StreamBeginCapture _ _ => true | _ => false end.

Definition is_end_capture (c : cuda_call * cudaError_t) : bool :=
  match fst c with StreamEndCapture _ => true | _ => false end.

Definition succeeded (c : cuda_call * cudaError_t) : bool :=
  N.eqb (snd c) cudaSuccess.

(** A runtime on which the status of a call is a function of the call, and
    the capture status of a stream a function of the stream; handles are
    issued as by [scripted_runtime]. *)
Definition answering (status_of : cuda_call -> cudaError_t)
    (capture_of : pointer -> cudaStreamCaptureStatus) : cuda_runtime N := {|
  cudaStreamIsCapturing := fun s d =>
    (status_of (StreamIsCapturing s), capture_of s, d);
  cudaGraphDestroy := fun g d => (status_of (GraphDestroy g), d);
  cudaStreamBeginCapture := fun s m d => (status_of (StreamBeginCapture s m), d);
  cudaStreamEndCapture := fun s d =>
    (status_of (StreamEndCapture s), (2 * d + 17)%N, N.succ d);
  cudaDeviceSynchronize := fun d => (status_of DeviceSynchronize, d);
  cudaGraphExecDestroy := fun e d => (status_of (GraphExecDestroy e), d);
  cudaGraphExecUpdate := fun e g d =>
    (status_of (GraphExecUpdate e g), cudaGraphExecUpdateSuccess, d);
  cudaGraphInstantiate := fun g d =>
    (status_of (GraphInstantiate g), (2 * d + 18)%N, N.succ d);
  cudaGraphLaunch := fun e s d => (status_of (GraphLaunch e s), d)
|}.

(** Every call succeeds, but those that satisfy [p], which return [r]. *)
Definition failing (p : cuda_call -> bool) (r : cudaError_t) (c : cuda_call)
    : cudaError_t :=
  if p c then r else cudaSuccess.

Definition nothing_captured (s : pointer) : cudaStreamCaptureStatus :=
  cudaStreamCaptureStatusNone.

(** The stream [65] is being captured already. *)
Definition stream_65_captured (s : pointer) : cudaStreamCaptureStatus :=
  if N.eqb s 65 then cudaStreamCaptureStatusActive else cudaStreamCaptureStatusNone.

Definition query_on (s : pointer) (c : cuda_call) : bool :=
  match c with StreamIsCapturing s' => N.eqb s' s | _ => false end.

Definition end_capture_call (c : cuda_call) : bool :=
  match c with StreamEndCapture _ => true | _ => false end.

Definition synchronize_call (c : cuda_call) : bool :=
  match c with DeviceSynchronize => true | _ => false end.

Definition instantiate_call (c : cuda_call) : bool :=
  match c with GraphInstantiate _ => true | _ => false end.

(** ** A concrete runtime, to run the model on *)

(** The driver state counts the handles issued so far; graphs get odd and
    executables even addresses.  Every call reports [on_destroy],
    [on_begin], ... as configured; [stream_status] is what every capture
    query reports, [usable] whether stopping a capture yields a graph. *)
Record script := {
  stream_status : cudaStreamCaptureStatus;
  on_destroy : cudaError_t;
  on_begin : cudaError_t;
  usable : bool;
  on_update : cudaGraphExecUpdateResult
}.

Definition scripted_runtime (c : script) : cuda_runtime N := {|
  cudaStreamIsCapturing := fun _ d => (cudaSuccess, stream_status c, d);
  cudaGraphDestroy := fun _ d => (on_destroy c, d);
  cudaStreamBeginCapture := fun _ _ d => (on_begin c, d);
  cudaStreamEndCapture := fun _ d =>
    (cudaSuccess, if usable c then (2 * d + 17)%N else nullptr, N.succ d);
  cudaDeviceSynchronize := fun d => (cudaSuccess, d);
  cudaGraphExecDestroy := fun _ d => (on_destroy c, d);
  cudaGraphExecUpdate := fun _ _ d => (cudaSuccess, on_update c, d);
  cudaGraphInstantiate := fun _ d => (cudaSuccess, (2 * d + 18)%N, N.succ d);
  cudaGraphLaunch := fun _ _ d => (cudaSuccess, d)
|}.

Definition benign : script :=
  {| stream_status := cudaStreamCaptureStatusNone; on_destroy := cudaSuccess;
     on_begin := cudaSuccess; usable := true;
     on_update := cudaGraphExecUpdateSuccess |}.

(** [cudaGetErrorString] on the statuses used below, appended to the checked
    expression the way [CUDA_CHECK_THROW] reports it. *)
Definition test_check_what (expr : string) (result : cudaError_t) : string :=
  String.append expr
    (String.append " failed: "
       (if N.eqb result cudaErrorCudartUnloading then "driver shutting down"
        else "unspecified launch failure")).

Definition idle_thread (stack : list pointer) : thread_state N :=
  {| s_current_captures := stack; driver := 0%N; api_calls := []; warnings := [] |}.

(** One manager at address [64], two at [64] and [128]. *)
Definition one_manager (o : CudaGraph) (stack : list pointer) : world N :=
  {| heap := {[ 64%N := o ]}; thread := idle_thread stack |}.

Definition two_managers (stack : list pointer) : world N :=
  {| heap := <[ 128%N := CudaGraph_new ]> {[ 64%N := CudaGraph_new ]};
     thread := idle_thread stack |}.

(** Scripts for the situations the properties are run on. *)
Definition update_refused : script :=
  {| stream_status := cudaStreamCaptureStatusNone; on_destroy := cudaSuccess;
     on_begin := cudaSuccess; usable := true; on_update := 2%N |}.

Definition capture_lost : script :=
  {| stream_status := cudaStreamCaptureStatusNone; on_destroy := cudaSuccess;
     on_begin := cudaSuccess; usable := false;
     on_update := cudaGraphExecUpdateSuccess |}.

Definition shutting_down : script :=
  {| stream_status := cudaStreamCaptureStatusNone;
     on_destroy := cudaErrorCudartUnloading;
     on_begin := cudaSuccess; usable := true;
     on_update := cudaGraphExecUpdateSuccess |}.

Definition destroy_refused : script :=
  {| stream_status := cudaStreamCaptureStatusNone; on_destroy := 719%N;
     on_begin := cudaSuccess; usable := true;
     on_update := cudaGraphExecUpdateSuccess |}.

Definition begin_refused : script :=
  {| stream_status := cudaStreamCaptureStatusNone; on_destroy := cudaSuccess;
     on_begin := 900%N; usable := true;
     on_update := cudaGraphExecUpdateSuccess |}.

(** A capture scope with nothing submitted inside. *)
Definition capture_scope {D} (rt : cuda_runtime D) (this stream : pointer)
    : M (world D) unit :=
  let* g := capture_guard rt this stream in
  ScopeGuard_release g.

(** A manager after its first completed scope on [scripted_runtime benign],
    and one in the middle of a later scope: its graph was destroyed when the
    scope was opened, its instance [12] is from an earlier iteration. *)
Definition warm : CudaGraph :=
  {| m_graph := 17%N; m_graph_instance := 20%N;
     m_synchronize_when_capture_done := false |}.

Definition recording (sync : bool) : CudaGraph :=
  {| m_graph := nullptr; m_graph_instance := 12%N;
     m_synchronize_when_capture_done := sync |}.

(** * Properties *)

Section Properties.

Context {D : Type}.
Variable rt : cuda_runtime D.

Implicit Types (w : world D) (t : thread_state D) (o : CudaGraph).
Implicit Types (this stream : pointer).

(** ** Running the monad *)

Ltac unfold_monad :=
  unfold back, pop_back, push_back, load, store, call, call_out, log_warning,
    CUDA_CHECK_THROW, try_catch, bind, ret, throw, undefined in *.

(** Case analysis on whatever the next [match] of the goal inspects. *)
Ltac next_case :=
  match goal with
  | |- context [match ?x with _ => _ end] =>
      lazymatch x with
      | context [match _ with _ => _ end] => fail
      | _ => destruct x eqn:?
      end
  end.

Ltac all_cases := repeat (next_case; cbn in *).

Lemma on_object_run {A} this (body : M (frame D) A) w o r o' t' :
  heap w !! this = Some o ->
  body (o, thread w) = (r, (o', t')) ->
  on_object this body w = (r, {| heap := <[this := o']> (heap w); thread := t' |}).
Proof. intros Hl Hb. unfold on_object. by rewrite Hl, Hb. Qed.

Lemma on_object_unchanged {A} this (body : M (frame D) A) w o r :
  heap w !! this = Some o ->
  body (o, thread w) = (r, (o, thread w)) ->
  on_object this body w = (r, w).
Proof.
  intros Hl Hb. rewrite (on_object_run this body w o r o (thread w) Hl Hb).
  rewrite insert_id by done. by destruct w.
Qed.

Lemma on_object_dangling {A} this (body : M (frame D) A) w :
  heap w !! this = None -> on_object this body w = (Undefined, w).
Proof. intros Hl. unfold on_object. by rewrite Hl. Qed.

Lemma on_object_lookup {A} this (body : M (frame D) A) w o :
  heap w !! this = Some o ->
  heap (snd (on_object this body w)) !! this = Some (fst (snd (body (o, thread w)))) /\
  thread (snd (on_object this body w)) = snd (snd (body (o, thread w))) /\
  fst (on_object this body w) = fst (body (o, thread w)).
Proof.
  intros Hl. unfold on_object. rewrite Hl.
  destruct (body (o, thread w)) as [r [o' t']]. cbn.
  by rewrite lookup_insert_eq.
Qed.

(** ** The capture session stack *)

(** C1 (as the code has it): [current_capture] is [nullptr] on an empty
    deque and otherwise the front of the deque, the capture opened first
    among those still active.  Opening a nested capture does not change it.
    It is the most recently opened capture whenever at most one capture is
    active, and, on a deque where no manager appears twice, only then. *)
Theorem current_capture_front t :
  (s_current_captures t = [] -> current_capture t = nullptr) /\
  (forall p rest, s_current_captures t = p :: rest -> current_capture t = p) /\
  (forall p, s_current_captures t <> [] ->
     current_capture (with_captures (s_current_captures t ++ [p]) t) = current_capture t) /\
  (length (s_current_captures t) <= 1 -> current_capture t = innermost_capture t) /\
  (NoDup (s_current_captures t) ->
   current_capture t = innermost_capture t -> length (s_current_captures t) <= 1).
Proof.
  assert (Honly : NoDup (s_current_captures t) ->
            current_capture t = innermost_capture t ->
            length (s_current_captures t) <= 1).
  { unfold current_capture, innermost_capture.
    destruct (s_current_captures t) as [|p [|q rest]]; [cbn; lia..|].
    rewrite last_cons_cons. intros Hnodup Heq. exfalso.
    apply NoDup_cons in Hnodup as [Hfresh _]. apply Hfresh.
    destruct (last (q :: rest)) as [x|] eqn:Hlast.
    - cbn in Heq. subst x. by apply last_Some_elem_of.
    - by apply last_None in Hlast. }
  split; [|split; [|split; [|split; [|exact Honly]]]]; clear Honly;
    unfold current_capture, innermost_capture;
    destruct (s_current_captures t) as [|p [|q rest]] eqn:Hs; cbn;
    first [ congruence | lia ].
Qed.

(** ** Skipped captures *)

(** C6: on the null stream and on the legacy stream [capture_guard] returns
    at once: no runtime call is made, nothing is pushed, the manager and the
    rest of the world are as before, and the guard it returns holds no
    callback, so that releasing it does nothing. *)
Theorem capture_guard_default_stream this stream w o :
  heap w !! this = Some o ->
  stream = nullptr \/ stream = cudaStreamLegacy ->
  exists g : ScopeGuard D,
    capture_guard rt this stream w = (Ok g, w) /\
    g = None /\
    forall w', ScopeGuard_release g w' = (Ok tt, w').
Proof.
  intros Hl Hs. exists None. split; [|done].
  apply on_object_unchanged with o; [done|].
  unfold capture_guard_body. by destruct Hs as [-> | ->].
Qed.

(** ** [reset] *)

Lemma reset_body_empty o t :
  m_graph o = nullptr -> m_graph_instance o = nullptr ->
  reset_body rt (o, t) = (Ok tt, (o, t)).
Proof.
  destruct o as [g e b]. cbn. intros -> ->. reflexivity.
Qed.

Lemma reset_body_ok o t o' t' :
  reset_body rt (o, t) = (Ok tt, (o', t')) ->
  m_graph o' = nullptr /\ m_graph_instance o' = nullptr.
Proof.
  unfold reset_body. unfold_monad. cbn. unfold is_null.
  all_cases; intros [= <- <-]; cbn.
  all: repeat match goal with
         | H : negb _ = false |- _ => apply negb_false_iff, N.eqb_eq in H
         end; by split.
Qed.

(** C9: [reset] on a manager that holds neither a graph nor an instance
    changes nothing and calls nothing; a [reset] that returns leaves both
    handles null; and [reset] twice in a row is [reset] once. *)
Theorem reset_idempotent this w :
  (forall o, heap w !! this = Some o ->
     m_graph o = nullptr -> m_graph_instance o = nullptr ->
     reset rt this w = (Ok tt, w)) /\
  (forall w', reset rt this w = (Ok tt, w') ->
     exists o', heap w' !! this = Some o' /\
       m_graph o' = nullptr /\ m_graph_instance o' = nullptr) /\
  (reset rt this ;; reset rt this) w = reset rt this w.
Proof.
  assert (Hok : forall w', reset rt this w = (Ok tt, w') ->
     exists o', heap w' !! this = Some o' /\
       m_graph o' = nullptr /\ m_graph_instance o' = nullptr).
  { intros w'. unfold reset, on_object.
    destruct (heap w !! this) as [o|] eqn:Hl; [|done].
    destruct (reset_body rt (o, thread w)) as [r [o' t']] eqn:Hb.
    intros [= -> <-]. exists o'. cbn. rewrite lookup_insert_eq.
    split; [done|]. by eapply reset_body_ok. }
  split; [|split; [exact Hok|]].
  - intros o Hl Hg He. apply on_object_unchanged with o; [done|].
    by apply reset_body_empty.
  - unfold bind at 1. destruct (reset rt this w) as [[[]|e|] w'] eqn:Hr; [|done..].
    destruct (Hok _ eq_refl) as (o' & Hl' & Hg & He).
    apply on_object_unchanged with o'; [done|]. by apply reset_body_empty.
Qed.


(** ** Opening a capture *)

Local Abbreviation begin_capture_call stream :=
  (StreamBeginCapture stream cudaStreamCaptureModeRelaxed).

Local Abbreviation begin_capture_expr :=
  "cudaStreamBeginCapture(stream, cudaStreamCaptureModeRelaxed)"%string.

Lemma with_m_graph_null o : m_graph o = nullptr -> with_m_graph nullptr o = o.
Proof. destruct o. cbn. by intros ->. Qed.

(** The run of [capture_guard] once both capture queries have reported that
    nothing is being captured, whatever [cudaStreamBeginCapture] returns. *)
Lemma capture_guard_body_begins this stream o t d1 d2 d3 rb d4 :
  stream <> nullptr -> stream <> cudaStreamLegacy ->
  cudaStreamIsCapturing rt stream (driver t) =
    (cudaSuccess, cudaStreamCaptureStatusNone, d1) ->
  cudaStreamIsCapturing rt cudaStreamLegacy d1 =
    (cudaSuccess, cudaStreamCaptureStatusNone, d2) ->
  (if is_null (m_graph o) then d3 = d2
   else cudaGraphDestroy rt (m_graph o) d2 = (cudaSuccess, d3)) ->
  cudaStreamBeginCapture rt stream cudaStreamCaptureModeRelaxed d3 = (rb, d4) ->
  capture_guard_body rt this stream (o, t) =
    (if N.eqb rb cudaSuccess then Ok (Some (finalize rt this stream))
     else Throw (cuda_check_error begin_capture_expr rb),
     (with_m_graph nullptr o,
      {| s_current_captures :=
           if N.eqb rb cudaSuccess then s_current_captures t ++ [this]
           else s_current_captures t;
         driver := d4;
         api_calls :=
           api_calls t ++
           [(StreamIsCapturing stream, cudaSuccess);
            (StreamIsCapturing cudaStreamLegacy, cudaSuccess)] ++
           (if is_null (m_graph o) then []
            else [(GraphDestroy (m_graph o), cudaSuccess)]) ++
           [(begin_capture_call stream, rb)];
         warnings := warnings t |})).
Proof.
  intros Hn Hleg Hq1 Hq2 Hdestroy Hbegin. unfold capture_guard_body.
  apply N.eqb_neq in Hn as ->. apply N.eqb_neq in Hleg as ->.
  unfold_monad. cbn. rewrite Hq1. cbn. rewrite Hq2. cbn.
  destruct (is_null (m_graph o)) eqn:Hg; cbn.
  - subst d3. rewrite Hbegin. cbn.
    rewrite with_m_graph_null by (by apply N.eqb_eq).
    destruct (N.eqb rb cudaSuccess); cbn; unfold with_call, with_captures; cbn;
      by rewrite <- !app_assoc.
  - rewrite Hdestroy. cbn. rewrite Hbegin. cbn.
    destruct (N.eqb rb cudaSuccess); cbn; unfold with_call, with_captures; cbn;
      by rewrite <- !app_assoc.
Qed.

(** C7 (as the code has it): when [capture_guard] proceeds, the graph left
    by the previous capture is destroyed whenever the manager holds one,
    whether or not it holds an instance, and [m_graph] is null afterwards;
    the instance is not touched.  Recording is then started on the stream in
    relaxed mode, the manager is pushed at the back of the deque, and the
    guard returned runs the finalize action of this manager and stream. *)
Theorem capture_guard_proceeds this stream w o d1 d2 d3 d4 :
  heap w !! this = Some o ->
  stream <> nullptr -> stream <> cudaStreamLegacy ->
  cudaStreamIsCapturing rt stream (driver (thread w)) =
    (cudaSuccess, cudaStreamCaptureStatusNone, d1) ->
  cudaStreamIsCapturing rt cudaStreamLegacy d1 =
    (cudaSuccess, cudaStreamCaptureStatusNone, d2) ->
  (if is_null (m_graph o) then d3 = d2
   else cudaGraphDestroy rt (m_graph o) d2 = (cudaSuccess, d3)) ->
  cudaStreamBeginCapture rt stream cudaStreamCaptureModeRelaxed d3 =
    (cudaSuccess, d4) ->
  capture_guard rt this stream w =
    (Ok (Some (finalize rt this stream)),
     {| heap := <[this := with_m_graph nullptr o]> (heap w);
        thread :=
          {| s_current_captures := s_current_captures (thread w) ++ [this];
             driver := d4;
             api_calls :=
               api_calls (thread w) ++
               [(StreamIsCapturing stream, cudaSuccess);
                (StreamIsCapturing cudaStreamLegacy, cudaSuccess)] ++
               (if is_null (m_graph o) then []
                else [(GraphDestroy (m_graph o), cudaSuccess)]) ++
               [(begin_capture_call stream, cudaSuccess)];
             warnings := warnings (thread w) |} |}).
Proof.
  intros Hl Hn Hleg Hq1 Hq2 Hdestroy Hbegin.
  apply on_object_run with o; [done|].
  by rewrite (capture_guard_body_begins this stream o (thread w)
                d1 d2 d3 cudaSuccess d4).
Qed.

Lemma capture_guard_body_push this stream o t :
  let run := capture_guard_body rt this stream (o, t) in
  let stack' := s_current_captures (snd (snd run)) in
  exists new,
    api_calls (snd (snd run)) = api_calls t ++ new /\
    match fst run with
    | Ok (Some g) =>
        g = finalize rt this stream /\
        stack' = s_current_captures t ++ [this] /\
        last new = Some (begin_capture_call stream, cudaSuccess)
    | _ => stack' = s_current_captures t
    end /\
    forall r, last new = Some (begin_capture_call stream, r) ->
      r <> cudaSuccess ->
      fst run = Throw (cuda_check_error begin_capture_expr r).
Proof.
  unfold capture_guard_body. unfold_monad. cbn.
  all_cases; unfold with_call, with_captures; cbn;
    eexists;
    (split; [first [ by rewrite <- ?app_assoc | symmetry; apply app_nil_r ]|]);
    cbn.
  all: repeat match goal with
         | H : N.eqb _ _ = true |- _ => apply N.eqb_eq in H; subst
         end.
  all: split; [done|]; try (intros r; discriminate 1).
  all: try (intros r [= <-]; done).
  all: intros r [= <-] _; done.
Qed.

(** C10: the stack changes only on the path on which
    [cudaStreamBeginCapture] was the last call made and returned
    [cudaSuccess]: there the manager is pushed and the guard carries the
    finalize action.  On every other path the stack is as before; and when
    [cudaStreamBeginCapture] returns another status, [capture_guard] throws
    the error of that call, so that no guard is returned. *)
Theorem capture_guard_push_after_begin this stream w o :
  heap w !! this = Some o ->
  let run := capture_guard rt this stream w in
  let stack' := s_current_captures (thread (snd run)) in
  exists new,
    api_calls (thread (snd run)) = api_calls (thread w) ++ new /\
    match fst run with
    | Ok (Some g) =>
        g = finalize rt this stream /\
        stack' = s_current_captures (thread w) ++ [this] /\
        last new = Some (begin_capture_call stream, cudaSuccess)
    | _ => stack' = s_current_captures (thread w)
    end /\
    forall r, last new = Some (begin_capture_call stream, r) ->
      r <> cudaSuccess ->
      fst run = Throw (cuda_check_error begin_capture_expr r).
Proof.
  intros Hl run stack'. subst run stack'.
  destruct (on_object_lookup this (capture_guard_body rt this stream) w o Hl)
    as (_ & Ht & Hr).
  unfold capture_guard. rewrite Ht, Hr.
  apply capture_guard_body_push.
Qed.

Lemma capture_guard_permissive this stream w o :
  permissive rt ->
  heap w !! this = Some o ->
  stream <> nullptr -> stream <> cudaStreamLegacy ->
  exists w1,
    capture_guard rt this stream w = (Ok (Some (finalize rt this stream)), w1) /\
    s_current_captures (thread w1) = s_current_captures (thread w) ++ [this] /\
    heap w1 = <[this := with_m_graph nullptr o]> (heap w).
Proof.
  intros P Hl Hn Hleg.
  pose proof (permissive_query rt P stream (driver (thread w))) as Hq1.
  destruct (cudaStreamIsCapturing rt stream (driver (thread w)))
    as [[r1 s1] d1] eqn:E1. cbn in Hq1. injection Hq1 as -> ->.
  pose proof (permissive_query rt P cudaStreamLegacy d1) as Hq2.
  destruct (cudaStreamIsCapturing rt cudaStreamLegacy d1)
    as [[r2 s2] d2] eqn:E2. cbn in Hq2. injection Hq2 as -> ->.
  assert (exists d3, if is_null (m_graph o) then d3 = d2
                     else cudaGraphDestroy rt (m_graph o) d2 = (cudaSuccess, d3))
    as [d3 Hd].
  { destruct (is_null (m_graph o)); [by exists d2|].
    pose proof (permissive_destroy rt P (m_graph o) d2) as Hq.
    destruct (cudaGraphDestroy rt (m_graph o) d2) as [r d3]. cbn in Hq.
    subst r. by exists d3. }
  pose proof (permissive_begin rt P stream cudaStreamCaptureModeRelaxed d3) as Hb.
  destruct (cudaStreamBeginCapture rt stream cudaStreamCaptureModeRelaxed d3)
    as [rb d4] eqn:E4. cbn in Hb. subst rb.
  eexists. split.
  - apply on_object_run with o; [done|].
    by rewrite (capture_guard_body_begins this stream o (thread w)
                  d1 d2 d3 cudaSuccess d4).
  - done.
Qed.

Lemma capture_all_pushes (stream_of : pointer -> pointer) ms w :
  permissive rt ->
  (forall m, m ∈ ms ->
     is_Some (heap w !! m) /\
     stream_of m <> nullptr /\ stream_of m <> cudaStreamLegacy) ->
  exists w1,
    capture_all rt stream_of ms w =
      (Ok ((fun m => Some (finalize rt m (stream_of m))) <$> ms), w1) /\
    s_current_captures (thread w1) = s_current_captures (thread w) ++ ms /\
    forall m, is_Some (heap w !! m) -> is_Some (heap w1 !! m).
Proof.
  intros P. revert w. induction ms as [|m ms IH]; intros w Hms.
  - exists w. cbn. by rewrite app_nil_r.
  - destruct (Hms m) as ([o Hl] & Hn & Hleg); [left|].
    destruct (capture_guard_permissive m (stream_of m) w o P Hl Hn Hleg)
      as (w1 & Hrun & Hst & Hheap).
    assert (Hkeep : forall m', is_Some (heap w !! m') -> is_Some (heap w1 !! m')).
    { intros m' H. rewrite Hheap, lookup_insert. by case_decide. }
    destruct (IH w1) as (w2 & Hrun2 & Hst2 & Hkeep2).
    { intros m' Hm'. destruct (Hms m') as (? & ? & ?); [by right|]. auto. }
    exists w2. cbn. unfold bind. rewrite Hrun, Hrun2. cbn.
    split; [done|]. split; [|by auto].
    by rewrite Hst2, Hst, <- app_assoc.
Qed.

(** ** The finalize action *)

(** The thread state once [cudaStreamEndCapture] has returned [r]. *)
Local Abbreviation ended stream r d t := (with_call (StreamEndCapture stream) r d t).

Lemma finalize_body_end_failed this stream o t r g d1 :
  cudaStreamEndCapture rt stream (driver t) = (r, g, d1) ->
  r <> cudaSuccess ->
  finalize_body rt this stream (o, t) =
    (Throw (cuda_check_error "cudaStreamEndCapture(stream, &m_graph)" r),
     (with_m_graph g o, ended stream r d1 t)).
Proof.
  intros Hend Hr. unfold finalize_body. unfold_monad. cbn. rewrite Hend. cbn.
  by apply N.eqb_neq in Hr as ->.
Qed.

Lemma finalize_body_out_of_order this stream o t top g d1 :
  cudaStreamEndCapture rt stream (driver t) = (cudaSuccess, g, d1) ->
  last (s_current_captures t) = Some top ->
  top <> this ->
  finalize_body rt this stream (o, t) =
    (Throw ordering_violation, (with_m_graph g o, ended stream cudaSuccess d1 t)).
Proof.
  intros Hend Hlast Hne. unfold finalize_body. unfold_monad. cbn.
  rewrite Hend. cbn. rewrite Hlast.
  by apply N.eqb_neq in Hne as ->.
Qed.

Lemma finalize_body_in_order this stream o t g d1 :
  cudaStreamEndCapture rt stream (driver t) = (cudaSuccess, g, d1) ->
  last (s_current_captures t) = Some this ->
  fst (finalize_body rt this stream (o, t)) <> Throw ordering_violation /\
  fst (finalize_body rt this stream (o, t)) <> Undefined /\
  s_current_captures (snd (snd (finalize_body rt this stream (o, t)))) =
    removelast (s_current_captures t).
Proof.
  intros Hend Hlast. unfold finalize_body. unfold_monad. cbn.
  rewrite Hend. cbn. rewrite Hlast, N.eqb_refl. cbn.
  all_cases; by repeat split.
Qed.

Lemma finalize_body_permissive this stream o t :
  permissive rt ->
  last (s_current_captures t) = Some this ->
  fst (finalize_body rt this stream (o, t)) = Ok tt.
Proof.
  intros P Hlast. unfold finalize_body. unfold_monad. cbn.
  pose proof (permissive_end rt P stream (driver t)) as Hend.
  destruct (cudaStreamEndCapture rt stream (driver t)) as [[r g] d1].
  cbn in Hend. subst r. cbn. rewrite Hlast, N.eqb_refl. cbn.
  all_cases; try reflexivity; exfalso;
    repeat match goal with
      | H : cudaDeviceSynchronize rt ?d = _ |- _ =>
          let X := fresh in
          pose proof (permissive_synchronize rt P d) as X; rewrite H in X; clear H
      | H : cudaGraphExecDestroy rt ?e ?d = _ |- _ =>
          let X := fresh in
          pose proof (permissive_exec_destroy rt P e d) as X; rewrite H in X; clear H
      | H : cudaGraphExecUpdate rt ?e ?g ?d = _ |- _ =>
          let X := fresh in
          pose proof (permissive_update rt P e g d) as X; rewrite H in X; clear H
      | H : cudaGraphInstantiate rt ?g ?d = _ |- _ =>
          let X := fresh in
          pose proof (permissive_instantiate rt P g d) as X; rewrite H in X; clear H
      | H : cudaGraphLaunch rt ?e ?s ?d = _ |- _ =>
          let X := fresh in
          pose proof (permissive_launch rt P e s d) as X; rewrite H in X; clear H
      end; cbn in *; subst; cbn in *; discriminate.
Qed.

(** Closing the scopes of the managers on the deque, in any order. *)
Lemma release_all_reverse_order (stream_of : pointer -> pointer) (ms fs : list pointer) w :
  permissive rt ->
  s_current_captures (thread w) = ms ->
  (forall m, m ∈ ms -> is_Some (heap w !! m)) ->
  fs ≡ₚ ms ->
  let guard m : ScopeGuard D := Some (finalize rt m (stream_of m)) in
  (fst (release_all (guard <$> fs) w) = Ok tt <-> fs = reverse ms) /\
  (fs <> reverse ms ->
   fst (release_all (guard <$> fs) w) = Throw ordering_violation).
Proof.
  intros P. revert ms w.
induction fs as [|f fs IH]; intros ms w Hst Hheap Hperm guard.
+ symmetry in Hperm. apply Permutation_nil_r in Hperm. subst ms.
  rewrite Hperm. cbn. by split.
+ destruct ms as [|top ms' _] using rev_ind.
  { symmetry in Hperm. by apply Permutation_nil_cons in Hperm. }
  rewrite reverse_snoc.
  assert (Hf : is_Some (heap w !! f)).
  { apply Hheap. rewrite <- Hperm. left. }
  destruct Hf as [o Hl].
  pose proof (permissive_end rt P (stream_of f) (driver (thread w))) as Hend.
  destruct (cudaStreamEndCapture rt (stream_of f) (driver (thread w)))
    as [[r g] d1] eqn:Hcall. cbn in Hend. subst r.
  assert (Hlast : last (s_current_captures (thread w)) = Some top)
    by (rewrite Hst; apply last_snoc).
  destruct (on_object_lookup f (finalize_body rt f (stream_of f)) w o Hl)
    as (Hlook' & Ht & Hr).
  fold (finalize rt f (stream_of f)) in Hlook', Ht, Hr.
  cbn. unfold bind.
  destruct (finalize rt f (stream_of f) w) as [r w1] eqn:Hrun. cbn in *.
  destruct (decide (top = f)) as [->|Hne].
  * pose proof (finalize_body_permissive f (stream_of f) o (thread w) P Hlast) as Hok.
    destruct (finalize_body_in_order f (stream_of f) o (thread w) g d1 Hcall Hlast)
      as (_ & _ & Hpop).
    rewrite Hok in Hr. subst r.
    rewrite <- Ht in Hpop. rewrite Hst, removelast_last in Hpop.
    assert (Hheap1 : forall m, m ∈ ms' -> is_Some (heap w1 !! m)).
    { intros m Hm.
      assert (Hw1 : heap w1 = <[f := fst (snd (finalize_body rt f (stream_of f) (o, thread w)))]> (heap w)).
      { unfold finalize, on_object in Hrun. rewrite Hl in Hrun.
        destruct (finalize_body rt f (stream_of f) (o, thread w)) as [r' [o' t']].
        by injection Hrun as _ <-. }
      rewrite Hw1, lookup_insert. case_decide; [done|].
      apply Hheap. apply elem_of_app. by left. }
    assert (Hperm1 : fs ≡ₚ ms').
    { apply (Permutation_cons_inv (a := f)). rewrite Hperm.
      by rewrite Permutation_app_comm. }
    destruct (IH ms' w1 Hpop Hheap1 Hperm1) as [IH1 IH2].
    subst guard. split.
    -- rewrite IH1. split; [by intros ->|by intros [= ->]].
    -- intros Hd. apply IH2. by intros ->.
  * rewrite (finalize_body_out_of_order f (stream_of f) o (thread w) top g d1 Hcall Hlast Hne) in Hr.
    subst r. split; [|done].
    split; [done|]. intros [= ? ?]. by subst.
Qed.

(** C2: once recording has been stopped, the finalize action of a manager
    throws the ordering violation exactly when the manager is not the back
    of the deque, and then leaves the deque as it is; when the manager is
    the back, it is popped.  Hence, on a runtime where no call fails, the
    scopes opened on the managers [ms] in this order can be closed in the
    order [fs] without exception exactly when [fs] is [ms] reversed, and the
    run ends with the ordering violation otherwise. *)
Theorem finalize_reverse_order :
  (forall this stream w o top g d1,
     heap w !! this = Some o ->
     last (s_current_captures (thread w)) = Some top ->
     cudaStreamEndCapture rt stream (driver (thread w)) = (cudaSuccess, g, d1) ->
     let run := finalize rt this stream w in
     (fst run = Throw ordering_violation <-> top <> this) /\
     (top <> this ->
      s_current_captures (thread (snd run)) = s_current_captures (thread w)) /\
     (top = this ->
      s_current_captures (thread (snd run)) =
        removelast (s_current_captures (thread w)))) /\
  (forall (stream_of : pointer -> pointer) (ms fs : list pointer) w,
     permissive rt ->
     s_current_captures (thread w) = [] ->
     (forall m, m ∈ ms ->
        is_Some (heap w !! m) /\
        stream_of m <> nullptr /\ stream_of m <> cudaStreamLegacy) ->
     fs ≡ₚ ms ->
     let guard m : ScopeGuard D := Some (finalize rt m (stream_of m)) in
     exists w1,
       capture_all rt stream_of ms w = (Ok (guard <$> ms), w1) /\
       s_current_captures (thread w1) = ms /\
       (fst (release_all (guard <$> fs) w1) = Ok tt <-> fs = reverse ms) /\
       (fs <> reverse ms ->
        fst (release_all (guard <$> fs) w1) = Throw ordering_violation)).
Proof.
  split.
  - intros this stream w o top g d1 Hl Hlast Hend run.
    destruct (on_object_lookup this (finalize_body rt this stream) w o Hl)
      as (_ & Ht & Hr).
    subst run. unfold finalize. rewrite Ht, Hr.
    destruct (decide (top = this)) as [->|Hne].
    + destruct (finalize_body_in_order this stream o (thread w) g d1 Hend Hlast)
        as (Hno & _ & Hpop).
      repeat split; try done.
    + rewrite (finalize_body_out_of_order this stream o (thread w) top g d1 Hend Hlast Hne).
      repeat split; try done.
  - intros stream_of ms fs w P Hempty Hms Hperm guard.
    destruct (capture_all_pushes stream_of ms w P Hms) as (w1 & Hrun & Hst & Hkeep).
    rewrite Hempty in Hst. cbn in Hst.
    exists w1. split; [exact Hrun|]. split; [exact Hst|].
    apply release_all_reverse_order; [done..| |done].
    intros m Hm. apply Hkeep. by apply Hms.
Qed.

(** ** What the finalize action does with the recorded graph *)

Lemma count_app p (l l' : list (cuda_call * cudaError_t)) :
  count p (l ++ l') = count p l + count p l'.
Proof. unfold count. by rewrite List.filter_app, length_app. Qed.

Local Arguments count : simpl never.

(** C4: when recording stopped without error but left no graph, the
    finalize action destroys the instance if the manager holds one, leaves
    [m_graph] and [m_graph_instance] null, and returns; it neither
    instantiates nor launches anything. *)
Theorem finalize_capture_failed this stream w o d1 d2 d3 :
  heap w !! this = Some o ->
  last (s_current_captures (thread w)) = Some this ->
  cudaStreamEndCapture rt stream (driver (thread w)) = (cudaSuccess, nullptr, d1) ->
  (if m_synchronize_when_capture_done o
   then cudaDeviceSynchronize rt d1 = (cudaSuccess, d2) else d2 = d1) ->
  (if is_null (m_graph_instance o) then d3 = d2
   else cudaGraphExecDestroy rt (m_graph_instance o) d2 = (cudaSuccess, d3)) ->
  exists w',
    finalize rt this stream w = (Ok tt, w') /\
    heap w' !! this =
      Some {| m_graph := nullptr; m_graph_instance := nullptr;
              m_synchronize_when_capture_done := false |} /\
    api_calls (thread w') =
      api_calls (thread w) ++
      [(StreamEndCapture stream, cudaSuccess)] ++
      synchronize_trace (m_synchronize_when_capture_done o) ++
      (if is_null (m_graph_instance o) then []
       else [(GraphExecDestroy (m_graph_instance o), cudaSuccess)]) /\
    count is_launch (api_calls (thread w')) = count is_launch (api_calls (thread w)) /\
    count is_instantiate (api_calls (thread w')) =
      count is_instantiate (api_calls (thread w)).
Proof.
  intros Hl Hlast Hend Hsync Hdestroy.
  unfold finalize, on_object. rewrite Hl.
  unfold finalize_body. unfold_monad. cbn. rewrite Hend. cbn.
  rewrite Hlast, N.eqb_refl. cbn.
  destruct o as [g0 e sync]. cbn in *.
  destruct sync; cbn; [rewrite Hsync; cbn|subst d2];
    (destruct (is_null e) eqn:He; cbn; [subst d3|rewrite Hdestroy; cbn]);
    eexists; (split; [reflexivity|]); cbn; rewrite lookup_insert_eq;
    rewrite <- ?app_assoc, ?count_app; unfold count; cbn;
    repeat split; first [ lia | done | by rewrite app_nil_r ].
Qed.

Lemma finalize_body_synchronizes this stream o t g d1 d2 :
  last (s_current_captures t) = Some this ->
  cudaStreamEndCapture rt stream (driver t) = (cudaSuccess, g, d1) ->
  m_synchronize_when_capture_done o = true ->
  cudaDeviceSynchronize rt d1 = (cudaSuccess, d2) ->
  let run := finalize_body rt this stream (o, t) in
  (exists rest,
     api_calls (snd (snd run)) =
       api_calls t ++
       [(StreamEndCapture stream, cudaSuccess); (DeviceSynchronize, cudaSuccess)] ++
       rest /\
     count is_synchronize rest = 0) /\
  m_synchronize_when_capture_done (fst (snd run)) = false.
Proof.
  intros Hlast Hend Hflag Hsync. unfold finalize_body. unfold_monad. cbn.
  rewrite Hend. cbn. rewrite Hlast, N.eqb_refl. cbn.
  rewrite Hflag. cbn. rewrite Hsync. cbn.
  all_cases; unfold with_call; cbn; (split; [|done]); eexists;
    (split; [first [ by rewrite <- ?app_assoc | by rewrite <- app_nil_r at 1 ]|]);
    done.
Qed.

Lemma finalize_body_flag_clear this stream o t :
  m_synchronize_when_capture_done o = false ->
  let run := finalize_body rt this stream (o, t) in
  count is_synchronize (api_calls (snd (snd run))) =
    count is_synchronize (api_calls t) /\
  m_synchronize_when_capture_done (fst (snd run)) = false.
Proof.
  intros Hflag. unfold finalize_body. unfold_monad. cbn.
  all_cases; unfold with_call; cbn; rewrite ?Hflag in *; try discriminate;
    rewrite ?count_app; unfold count; cbn; split; (lia || done).
Qed.

Lemma capture_guard_body_flag this stream o t :
  let run := capture_guard_body rt this stream (o, t) in
  count is_synchronize (api_calls (snd (snd run))) =
    count is_synchronize (api_calls t) /\
  m_synchronize_when_capture_done (fst (snd run)) =
    m_synchronize_when_capture_done o.
Proof.
  unfold capture_guard_body. unfold_monad. cbn.
  all_cases; unfold with_call; cbn;
    rewrite ?count_app; unfold count; cbn; split; (lia || done).
Qed.

Lemma schedule_synchronize_run this w o :
  heap w !! this = Some o ->
  schedule_synchronize this w =
    (Ok tt, {| heap := <[this := with_m_synchronize true o]> (heap w);
               thread := thread w |}).
Proof. intros Hl. by apply on_object_run with o. Qed.

Lemma capture_guard_synchronize_free this stream w o :
  heap w !! this = Some o ->
  m_synchronize_when_capture_done o = false ->
  synchronize_free this w (snd (capture_guard rt this stream w)).
Proof.
  intros Hl Hflag.
  destruct (on_object_lookup this (capture_guard_body rt this stream) w o Hl)
    as (Hl' & Ht & _).
  destruct (capture_guard_body_flag this stream o (thread w)) as [Hc Hf].
  unfold synchronize_free, capture_guard. rewrite Ht. split; [exact Hc|].
  eexists. split; [exact Hl'|]. by rewrite Hf.
Qed.

Lemma finalize_synchronize_free this stream w o :
  heap w !! this = Some o ->
  m_synchronize_when_capture_done o = false ->
  synchronize_free this w (snd (finalize rt this stream w)).
Proof.
  intros Hl Hflag.
  destruct (on_object_lookup this (finalize_body rt this stream) w o Hl)
    as (Hl' & Ht & _).
  destruct (finalize_body_flag_clear this stream o (thread w) Hflag) as [Hc Hf].
  unfold synchronize_free, finalize. rewrite Ht. split; [exact Hc|].
  eexists. split; [exact Hl'|exact Hf].
Qed.

(** C5: [schedule_synchronize] sets the flag of the manager and nothing
    else.  The finalize action that follows calls [cudaDeviceSynchronize]
    right after recording was stopped, whether or not a graph came out of it,
    and clears the flag once that call has returned; it does not synchronize
    again.  As long as the flag is clear neither [capture_guard] nor the
    finalize action synchronizes, and they leave the flag clear. *)
Theorem finalize_synchronizes_once this stream w0 o0 g d1 d2 :
  heap w0 !! this = Some o0 ->
  last (s_current_captures (thread w0)) = Some this ->
  cudaStreamEndCapture rt stream (driver (thread w0)) = (cudaSuccess, g, d1) ->
  cudaDeviceSynchronize rt d1 = (cudaSuccess, d2) ->
  let w := snd (schedule_synchronize this w0) in
  let w' := snd (finalize rt this stream w) in
  (fst (schedule_synchronize this w0) = Ok tt /\
   thread w = thread w0 /\
   heap w !! this = Some (with_m_synchronize true o0)) /\
  (exists rest,
     api_calls (thread w') =
       api_calls (thread w0) ++
       [(StreamEndCapture stream, cudaSuccess); (DeviceSynchronize, cudaSuccess)] ++
       rest /\
     count is_synchronize rest = 0) /\
  (exists o', heap w' !! this = Some o' /\
     m_synchronize_when_capture_done o' = false) /\
  (forall stream2 w2 o2,
     heap w2 !! this = Some o2 ->
     m_synchronize_when_capture_done o2 = false ->
     synchronize_free this w2 (snd (capture_guard rt this stream2 w2)) /\
     synchronize_free this w2 (snd (finalize rt this stream2 w2))).
Proof.
  intros Hl0 Hlast Hend Hsync w w'. subst w' w.
  rewrite (schedule_synchronize_run this w0 o0 Hl0). cbn [fst snd].
  set (w := {| heap := <[this := with_m_synchronize true o0]> (heap w0);
               thread := thread w0 |}).
  assert (Hl : heap w !! this = Some (with_m_synchronize true o0))
    by apply lookup_insert_eq.
  split; [done|].
  destruct (on_object_lookup this (finalize_body rt this stream) w _ Hl)
    as (Hl' & Ht & _).
  destruct (finalize_body_synchronizes this stream (with_m_synchronize true o0)
              (thread w0) g d1 d2 Hlast Hend eq_refl Hsync) as [Htrace Hclear].
  unfold finalize at 1 2. rewrite Ht. split; [exact Htrace|]. split.
  { eexists. split; [exact Hl'|exact Hclear]. }
  intros stream2 w2 o2 Hl2 Hflag2. split.
  - by apply capture_guard_synchronize_free with o2.
  - by apply finalize_synchronize_free with o2.
Qed.

(** C3: the finalize action of a manager that holds an instance [e], once
    recording has produced a graph [g].  When [cudaGraphExecUpdate] reports
    [cudaGraphExecUpdateSuccess], the only calls that follow are that update
    and the launch of [e], which stays the instance of the manager.  When it
    returns without error but reports another result, [e] is destroyed, one
    instance is built from [g], and that instance is launched and kept. *)
Theorem finalize_update_or_rebuild this stream w o g e d1 d2 :
  heap w !! this = Some o ->
  last (s_current_captures (thread w)) = Some this ->
  cudaStreamEndCapture rt stream (driver (thread w)) = (cudaSuccess, g, d1) ->
  g <> nullptr ->
  m_graph_instance o = e ->
  e <> nullptr ->
  (if m_synchronize_when_capture_done o
   then cudaDeviceSynchronize rt d1 = (cudaSuccess, d2) else d2 = d1) ->
  let before :=
    api_calls (thread w) ++
    [(StreamEndCapture stream, cudaSuccess)] ++
    synchronize_trace (m_synchronize_when_capture_done o) in
  let run := finalize rt this stream w in
  (forall d3 rl d4,
     cudaGraphExecUpdate rt e g d2 = (cudaSuccess, cudaGraphExecUpdateSuccess, d3) ->
     cudaGraphLaunch rt e stream d3 = (rl, d4) ->
     heap (snd run) !! this =
       Some {| m_graph := g; m_graph_instance := e;
               m_synchronize_when_capture_done := false |} /\
     api_calls (thread (snd run)) =
       before ++ [(GraphExecUpdate e g, cudaSuccess); (GraphLaunch e stream, rl)] /\
     (rl = cudaSuccess -> fst run = Ok tt)) /\
  (forall u d3 d4 e' d5 rl d6,
     cudaGraphExecUpdate rt e g d2 = (cudaSuccess, u, d3) ->
     u <> cudaGraphExecUpdateSuccess ->
     cudaGraphExecDestroy rt e d3 = (cudaSuccess, d4) ->
     cudaGraphInstantiate rt g d4 = (cudaSuccess, e', d5) ->
     cudaGraphLaunch rt e' stream d5 = (rl, d6) ->
     heap (snd run) !! this =
       Some {| m_graph := g; m_graph_instance := e';
               m_synchronize_when_capture_done := false |} /\
     api_calls (thread (snd run)) =
       before ++
       [(GraphExecUpdate e g, cudaSuccess); (GraphExecDestroy e, cudaSuccess);
        (GraphInstantiate g, cudaSuccess); (GraphLaunch e' stream, rl)] /\
     (rl = cudaSuccess -> fst run = Ok tt)).
Proof.
  intros Hl Hlast Hend Hg He Hne Hsync before run. subst before run.
  unfold finalize, on_object. rewrite Hl.
  unfold finalize_body. unfold_monad. cbn. rewrite Hend. cbn.
  rewrite Hlast, N.eqb_refl. cbn.
  destruct o as [g0 e0 sync]. cbn in *. subst e0.
  apply N.eqb_neq in Hg, Hne. unfold is_null.
  split.
  - intros d3 rl d4 Hupdate Hlaunch.
    destruct sync; cbn; [rewrite Hsync; cbn|subst d2];
      rewrite Hg; cbn; rewrite Hne; cbn; rewrite Hupdate; cbn;
      rewrite Hne; cbn; rewrite Hlaunch; cbn;
      destruct (N.eqb rl cudaSuccess) eqn:Hrl; cbn;
      rewrite lookup_insert_eq, <- ?app_assoc; cbn;
      (repeat split; try done); intros ->; done.
  - intros u d3 d4 e' d5 rl d6 Hupdate Hu Hdestroy Hinst Hlaunch.
    apply N.eqb_neq in Hu.
    destruct sync; cbn; [rewrite Hsync; cbn|subst d2];
      rewrite Hg; cbn; rewrite Hne; cbn; rewrite Hupdate; cbn;
      rewrite Hu; cbn; rewrite Hdestroy; cbn; rewrite Hinst; cbn;
      rewrite Hlaunch; cbn;
      destruct (N.eqb rl cudaSuccess) eqn:Hrl; cbn;
      rewrite lookup_insert_eq, <- ?app_assoc; cbn;
      (repeat split; try done); intros ->; done.
Qed.

(** ** Destruction *)

Variable cuda_check_what : string -> cudaError_t -> string.

Local Abbreviation what := (what cuda_check_what).

Lemma reset_body_defined o t :
  fst (reset_body rt (o, t)) <> Undefined /\
  warnings (snd (snd (reset_body rt (o, t)))) = warnings t.
Proof.
  unfold reset_body. unfold_monad. cbn. all_cases; by split.
Qed.

Lemma destructor_body_releases o t r1 d1 r2 d2 :
  (if is_null (m_graph o) then r1 = cudaSuccess /\ d1 = driver t
   else cudaGraphDestroy rt (m_graph o) (driver t) = (r1, d1)) ->
  (if is_null (m_graph_instance o) then r2 = cudaSuccess /\ d2 = d1
   else cudaGraphExecDestroy rt (m_graph_instance o) d1 = (r2, d2)) ->
  let run := destructor_body rt cuda_check_what (o, t) in
  api_calls (snd (snd run)) =
    api_calls t ++
    (if is_null (m_graph o) then [] else [(GraphDestroy (m_graph o), r1)]) ++
    (if N.eqb r1 cudaSuccess && negb (is_null (m_graph_instance o))
     then [(GraphExecDestroy (m_graph_instance o), r2)] else []) /\
  fst (snd run) =
    {| m_graph := if N.eqb r1 cudaSuccess then nullptr else m_graph o;
       m_graph_instance :=
         if N.eqb r1 cudaSuccess && N.eqb r2 cudaSuccess then nullptr
         else m_graph_instance o;
       m_synchronize_when_capture_done := m_synchronize_when_capture_done o |}.
Proof.
  intros Hd He. unfold destructor_body, reset_body. unfold_monad. cbn.
  destruct o as [g e sync]. cbn in *.
  destruct (is_null g) eqn:Hg; cbn;
    [destruct Hd as [-> ->]|rewrite Hd; cbn; destruct (N.eqb r1 cudaSuccess); cbn];
    try (destruct (is_null e) eqn:Hnull; cbn;
         [destruct He as [-> ->]
         |rewrite He; cbn; destruct (N.eqb r2 cudaSuccess); cbn]);
    repeat match goal with
      | |- context [find_is_npos ?a ?b] => destruct (find_is_npos a b); cbn
      end;
    unfold with_call, with_warning, with_m_graph, with_m_graph_instance; cbn;
    unfold is_null in *;
    repeat match goal with
      | H : N.eqb _ _ = true |- _ => apply N.eqb_eq in H; subst
      end;
    rewrite <- ?app_assoc, ?app_nil_r; by split.
Qed.

(** C8: the destructor runs [reset] and never throws.  It leaves the
    manager, the deque, the driver and the trace as [reset] leaves them; when
    [reset] throws, the exception ends there: nothing is logged when its text
    contains "driver shutting down", and one warning is logged otherwise.
    The handles are released through the runtime: the graph, if held, is
    passed to [cudaGraphDestroy], and once that has succeeded the instance,
    if held, is passed to [cudaGraphExecDestroy]; a handle is null afterwards
    exactly when it was null before or its release was reached and
    succeeded. *)
Theorem destructor_never_throws this w o :
  heap w !! this = Some o ->
  let r := reset rt this w in
  let d := destructor rt cuda_check_what this w in
  fst d = Ok tt /\
  heap (snd d) = heap (snd r) /\
  s_current_captures (thread (snd d)) = s_current_captures (thread (snd r)) /\
  driver (thread (snd d)) = driver (thread (snd r)) /\
  api_calls (thread (snd d)) = api_calls (thread (snd r)) /\
  warnings (thread (snd d)) =
    warnings (thread w) ++
    match fst r with
    | Throw error =>
        if find_is_npos (what error) "driver shutting down"
        then [String.append "Could not destroy cuda graph: " (what error)]
        else []
    | _ => []
    end /\
  (fst r = Ok tt ->
   exists o', heap (snd d) !! this = Some o' /\
     m_graph o' = nullptr /\ m_graph_instance o' = nullptr) /\
  (forall r1 d1 r2 d2,
     (if is_null (m_graph o) then r1 = cudaSuccess /\ d1 = driver (thread w)
      else cudaGraphDestroy rt (m_graph o) (driver (thread w)) = (r1, d1)) ->
     (if is_null (m_graph_instance o) then r2 = cudaSuccess /\ d2 = d1
      else cudaGraphExecDestroy rt (m_graph_instance o) d1 = (r2, d2)) ->
     api_calls (thread (snd d)) =
       api_calls (thread w) ++
       (if is_null (m_graph o) then [] else [(GraphDestroy (m_graph o), r1)]) ++
       (if N.eqb r1 cudaSuccess && negb (is_null (m_graph_instance o))
        then [(GraphExecDestroy (m_graph_instance o), r2)] else []) /\
     heap (snd d) !! this =
       Some {| m_graph := if N.eqb r1 cudaSuccess then nullptr else m_graph o;
               m_graph_instance :=
                 if N.eqb r1 cudaSuccess && N.eqb r2 cudaSuccess then nullptr
                 else m_graph_instance o;
               m_synchronize_when_capture_done :=
                 m_synchronize_when_capture_done o |}).
Proof.
  intros Hl r d. subst r d.
  assert (Hrelease : forall r1 d1 r2 d2,
     (if is_null (m_graph o) then r1 = cudaSuccess /\ d1 = driver (thread w)
      else cudaGraphDestroy rt (m_graph o) (driver (thread w)) = (r1, d1)) ->
     (if is_null (m_graph_instance o) then r2 = cudaSuccess /\ d2 = d1
      else cudaGraphExecDestroy rt (m_graph_instance o) d1 = (r2, d2)) ->
     api_calls (thread (snd (destructor rt cuda_check_what this w))) =
       api_calls (thread w) ++
       (if is_null (m_graph o) then [] else [(GraphDestroy (m_graph o), r1)]) ++
       (if N.eqb r1 cudaSuccess && negb (is_null (m_graph_instance o))
        then [(GraphExecDestroy (m_graph_instance o), r2)] else []) /\
     heap (snd (destructor rt cuda_check_what this w)) !! this =
       Some {| m_graph := if N.eqb r1 cudaSuccess then nullptr else m_graph o;
               m_graph_instance :=
                 if N.eqb r1 cudaSuccess && N.eqb r2 cudaSuccess then nullptr
                 else m_graph_instance o;
               m_synchronize_when_capture_done :=
                 m_synchronize_when_capture_done o |}).
  { intros r1 d1 r2 d2 Hd He.
    destruct (on_object_lookup this (destructor_body rt cuda_check_what) w o Hl)
      as (Hl' & Ht & _).
    destruct (destructor_body_releases o (thread w) r1 d1 r2 d2 Hd He) as [Htrace Hobj].
    unfold destructor. rewrite Ht, Hl'. split; [exact Htrace|by rewrite Hobj]. }
  revert Hrelease.
  unfold reset, destructor, on_object. rewrite Hl.
  unfold destructor_body, try_catch.
  destruct (reset_body_defined o (thread w)) as [Hdef Hwarn].
  destruct (reset_body rt (o, thread w)) as [[[]|error|] [o' t']] eqn:Hr;
    cbn in Hdef, Hwarn; cbn; [| |done].
  - intros Hrelease. rewrite Hwarn, app_nil_r.
    do 6 (split; [done|]). split; [|exact Hrelease].
    intros _. exists o'. rewrite lookup_insert_eq. split; [done|].
    exact (reset_body_ok o (thread w) o' t' Hr).
  - unfold log_warning, ret.
    destruct (find_is_npos (what error) "driver shutting down"); cbn;
      intros Hrelease; rewrite Hwarn, ?app_nil_r;
      do 6 (split; [done|]); (split; [done|exact Hrelease]).
Qed.

(** ** More on opening a capture *)

Local Abbreviation query_expr :=
  "cudaStreamIsCapturing(stream, &capture_status)"%string.

Ltac trace_extension :=
  first [ by rewrite <- ?app_assoc | symmetry; apply app_nil_r ].

Ltac statuses :=
  repeat match goal with
    | H : N.eqb _ _ = true |- _ => apply N.eqb_eq in H
    | H : N.eqb _ _ = false |- _ => apply N.eqb_neq in H
    | H : negb _ = true |- _ => apply negb_true_iff in H
    | H : negb _ = false |- _ => apply negb_false_iff in H
    end.

Lemma capture_guard_body_skipped this stream o t :
  fst (capture_guard_body rt this stream (o, t)) = Ok None ->
  let run := capture_guard_body rt this stream (o, t) in
  fst (snd run) = o /\
  s_current_captures (snd (snd run)) = s_current_captures t /\
  warnings (snd (snd run)) = warnings t /\
  exists new,
    api_calls (snd (snd run)) = api_calls t ++ new /\
    length new <= 2 /\ forallb is_query new = true.
Proof.
  unfold capture_guard_body. unfold_monad. cbn.
  all_cases; try discriminate; intros _; unfold with_call; cbn;
    (repeat split; try done); eexists;
    (split; [trace_extension|]); cbn; split; (lia || done).
Qed.

(** X1: a [capture_guard] that returns the empty guard did no bookkeeping:
    the heap, the deque and the warnings are as before, and all it asked of
    the runtime is at most two capture queries. *)
Theorem capture_guard_skipped this stream w o :
  heap w !! this = Some o ->
  fst (capture_guard rt this stream w) = Ok None ->
  let w' := snd (capture_guard rt this stream w) in
  heap w' = heap w /\
  s_current_captures (thread w') = s_current_captures (thread w) /\
  warnings (thread w') = warnings (thread w) /\
  exists new,
    api_calls (thread w') = api_calls (thread w) ++ new /\
    length new <= 2 /\ forallb is_query new = true.
Proof.
  intros Hl. unfold capture_guard, on_object. rewrite Hl.
  pose proof (capture_guard_body_skipped this stream o (thread w)) as Hbody.
  destruct (capture_guard_body rt this stream (o, thread w)) as [r [o' t']].
  cbn in *. intros Hr. destruct (Hbody Hr) as (-> & Hst & Hw & Hnew).
  rewrite insert_id by done. done.
Qed.

(** X2: the three conditions under which [capture_guard] steps aside on a
    stream of its own: the stream is already being captured; the query on
    the legacy stream returns [cudaErrorStreamCaptureImplicit]; the legacy
    stream is being captured.  Each gives the empty guard, and neither a
    graph is destroyed nor recording started. *)
Theorem capture_guard_steps_aside this stream w o status d1 :
  heap w !! this = Some o ->
  stream <> nullptr -> stream <> cudaStreamLegacy ->
  cudaStreamIsCapturing rt stream (driver (thread w)) = (cudaSuccess, status, d1) ->
  let asked := with_call (StreamIsCapturing stream) cudaSuccess d1 (thread w) in
  (status <> cudaStreamCaptureStatusNone ->
   capture_guard rt this stream w = (Ok None, {| heap := heap w; thread := asked |})) /\
  (forall r2 status2 d2,
     status = cudaStreamCaptureStatusNone ->
     cudaStreamIsCapturing rt cudaStreamLegacy d1 = (r2, status2, d2) ->
     r2 = cudaErrorStreamCaptureImplicit \/
     (r2 = cudaSuccess /\ status2 <> cudaStreamCaptureStatusNone) ->
     capture_guard rt this stream w =
       (Ok None,
        {| heap := heap w;
           thread := with_call (StreamIsCapturing cudaStreamLegacy) r2 d2 asked |})).
Proof.
  intros Hl Hn Hleg Hq1 asked. subst asked.
  apply N.eqb_neq in Hn, Hleg. split.
  - intros Hstatus.
    unfold capture_guard.
    rewrite (on_object_run this (capture_guard_body rt this stream) w o
               (Ok None) o (with_call (StreamIsCapturing stream) cudaSuccess d1 (thread w)) Hl).
    + by rewrite insert_id.
    + unfold capture_guard_body. rewrite Hn, Hleg. unfold_monad. cbn.
      rewrite Hq1. cbn. by destruct status.
  - intros r2 status2 d2 -> Hq2 Hskip.
    unfold capture_guard.
    rewrite (on_object_run this (capture_guard_body rt this stream) w o
               (Ok None) o
               (with_call (StreamIsCapturing cudaStreamLegacy) r2 d2
                  (with_call (StreamIsCapturing stream) cudaSuccess d1 (thread w))) Hl).
    + by rewrite insert_id.
    + unfold capture_guard_body. rewrite Hn, Hleg. unfold_monad. cbn.
      rewrite Hq1. cbn. rewrite Hq2. cbn.
      destruct Hskip as [-> | [-> Hs2]]; [done|]. cbn. by destruct status2.
Qed.

(** X3: a capture query that fails is a hard error.  A status other than
    [cudaSuccess] on the stream itself, or one other than [cudaSuccess] and
    [cudaErrorStreamCaptureImplicit] on the legacy stream, is thrown; the
    manager and the deque are as before. *)
Theorem capture_guard_query_failed this stream w o r1 status d1 :
  heap w !! this = Some o ->
  stream <> nullptr -> stream <> cudaStreamLegacy ->
  cudaStreamIsCapturing rt stream (driver (thread w)) = (r1, status, d1) ->
  let asked := with_call (StreamIsCapturing stream) r1 d1 (thread w) in
  (r1 <> cudaSuccess ->
   capture_guard rt this stream w =
     (Throw (cuda_check_error query_expr r1),
      {| heap := heap w; thread := asked |})) /\
  (forall r2 status2 d2,
     r1 = cudaSuccess -> status = cudaStreamCaptureStatusNone ->
     cudaStreamIsCapturing rt cudaStreamLegacy d1 = (r2, status2, d2) ->
     r2 <> cudaSuccess -> r2 <> cudaErrorStreamCaptureImplicit ->
     capture_guard rt this stream w =
       (Throw (cuda_check_error "capture_result" r2),
        {| heap := heap w;
           thread := with_call (StreamIsCapturing cudaStreamLegacy) r2 d2 asked |})).
Proof.
  intros Hl Hn Hleg Hq1 asked. subst asked.
  apply N.eqb_neq in Hn, Hleg. split.
  - intros Hr1. apply N.eqb_neq in Hr1.
    unfold capture_guard.
    rewrite (on_object_run this (capture_guard_body rt this stream) w o
               (Throw (cuda_check_error query_expr r1)) o
               (with_call (StreamIsCapturing stream) r1 d1 (thread w)) Hl).
    + by rewrite insert_id.
    + unfold capture_guard_body. rewrite Hn, Hleg. unfold_monad. cbn.
      rewrite Hq1. cbn. by rewrite Hr1.
  - intros r2 status2 d2 -> -> Hq2 Hr2 Himp. apply N.eqb_neq in Hr2, Himp.
    unfold capture_guard.
    rewrite (on_object_run this (capture_guard_body rt this stream) w o
               (Throw (cuda_check_error "capture_result" r2)) o
               (with_call (StreamIsCapturing cudaStreamLegacy) r2 d2
                  (with_call (StreamIsCapturing stream) cudaSuccess d1 (thread w))) Hl).
    + by rewrite insert_id.
    + unfold capture_guard_body. rewrite Hn, Hleg. unfold_monad. cbn.
      rewrite Hq1. cbn. rewrite Hq2. cbn. by rewrite Himp, Hr2.
Qed.

(** X4: when [cudaGraphDestroy] fails in [capture_guard], its error is
    thrown before [m_graph] is cleared: the manager still holds the graph,
    recording is not started and nothing is pushed. *)
Theorem capture_guard_destroy_failed this stream w o d1 d2 r d3 :
  heap w !! this = Some o ->
  stream <> nullptr -> stream <> cudaStreamLegacy ->
  cudaStreamIsCapturing rt stream (driver (thread w)) =
    (cudaSuccess, cudaStreamCaptureStatusNone, d1) ->
  cudaStreamIsCapturing rt cudaStreamLegacy d1 =
    (cudaSuccess, cudaStreamCaptureStatusNone, d2) ->
  m_graph o <> nullptr ->
  cudaGraphDestroy rt (m_graph o) d2 = (r, d3) ->
  r <> cudaSuccess ->
  capture_guard rt this stream w =
    (Throw (cuda_check_error "cudaGraphDestroy(m_graph)" r),
     {| heap := heap w;
        thread :=
          {| s_current_captures := s_current_captures (thread w);
             driver := d3;
             api_calls :=
               api_calls (thread w) ++
               [(StreamIsCapturing stream, cudaSuccess);
                (StreamIsCapturing cudaStreamLegacy, cudaSuccess);
                (GraphDestroy (m_graph o), r)];
             warnings := warnings (thread w) |} |}).
Proof.
  intros Hl Hn Hleg Hq1 Hq2 Hg Hd Hr.
  apply N.eqb_neq in Hn, Hleg, Hg, Hr.
  unfold capture_guard.
  erewrite (on_object_run this (capture_guard_body rt this stream) w o _ o _ Hl).
  - by rewrite insert_id.
  - unfold capture_guard_body. rewrite Hn, Hleg. unfold_monad. cbn.
    rewrite Hq1. cbn. rewrite Hq2. cbn. unfold is_null. rewrite Hg. cbn.
    rewrite Hd. cbn. rewrite Hr. unfold with_call. cbn.
    by rewrite <- !app_assoc.
Qed.

Lemma capture_guard_body_frame this stream o t :
  let run := capture_guard_body rt this stream (o, t) in
  m_graph_instance (fst (snd run)) = m_graph_instance o /\
  m_synchronize_when_capture_done (fst (snd run)) = m_synchronize_when_capture_done o /\
  (m_graph (fst (snd run)) = m_graph o \/ m_graph (fst (snd run)) = nullptr) /\
  warnings (snd (snd run)) = warnings t /\
  exists new,
    api_calls (snd (snd run)) = api_calls t ++ new /\
    count is_end_capture new = 0 /\ count is_synchronize new = 0 /\
    count is_instantiate new = 0 /\ count is_launch new = 0.
Proof.
  unfold capture_guard_body. unfold_monad. cbn.
  all_cases; unfold with_call; cbn;
    (repeat split; try done; try (by left); try (by right)); eexists;
    (split; [trace_extension|]); done.
Qed.

(** X5: whatever the runtime answers, [capture_guard] leaves
    [m_graph_instance] and the synchronization flag of the manager alone,
    leaves [m_graph] as it is or null, logs nothing, and never stops a
    recording, waits for the device, instantiates or launches. *)
Theorem capture_guard_frame this stream w o :
  heap w !! this = Some o ->
  let w' := snd (capture_guard rt this stream w) in
  (exists o',
     heap w' !! this = Some o' /\
     m_graph_instance o' = m_graph_instance o /\
     m_synchronize_when_capture_done o' = m_synchronize_when_capture_done o /\
     (m_graph o' = m_graph o \/ m_graph o' = nullptr)) /\
  warnings (thread w') = warnings (thread w) /\
  exists new,
    api_calls (thread w') = api_calls (thread w) ++ new /\
    count is_end_capture new = 0 /\ count is_synchronize new = 0 /\
    count is_instantiate new = 0 /\ count is_launch new = 0.
Proof.
  intros Hl w'. subst w'.
  destruct (on_object_lookup this (capture_guard_body rt this stream) w o Hl)
    as (Hl' & Ht & _).
  destruct (capture_guard_body_frame this stream o (thread w))
    as (He & Hf & Hg & Hw & Hnew).
  unfold capture_guard. rewrite Ht. split; [|by split].
  eexists. split; [exact Hl'|done].
Qed.

Lemma capture_guard_body_throws this stream o t e :
  fst (capture_guard_body rt this stream (o, t)) = Throw e ->
  exists expr r c new,
    e = cuda_check_error expr r /\ r <> cudaSuccess /\
    api_calls (snd (snd (capture_guard_body rt this stream (o, t)))) =
      api_calls t ++ new ++ [(c, r)] /\
    forallb succeeded new = true.
Proof.
  unfold capture_guard_body. unfold_monad. cbn.
  all_cases; try discriminate; intros [= <-]; statuses; subst;
    unfold with_call; cbn; do 3 eexists;
    first
      [ exists []; by repeat split
      | eexists [_]; repeat split; [done|by rewrite <- ?app_assoc|done]
      | eexists [_; _]; repeat split; [done|by rewrite <- ?app_assoc|done]
      | eexists [_; _; _]; repeat split; [done|by rewrite <- ?app_assoc|done] ].
Qed.

(** X6: [capture_guard] throws nothing but the error of a runtime call that
    failed: the status thrown is not [cudaSuccess], it is the status of the
    last call made, and every call made before that one had succeeded. *)
Theorem capture_guard_throws this stream w o e :
  heap w !! this = Some o ->
  fst (capture_guard rt this stream w) = Throw e ->
  exists expr r c new,
    e = cuda_check_error expr r /\ r <> cudaSuccess /\
    api_calls (thread (snd (capture_guard rt this stream w))) =
      api_calls (thread w) ++ new ++ [(c, r)] /\
    forallb succeeded new = true.
Proof.
  intros Hl.
  destruct (on_object_lookup this (capture_guard_body rt this stream) w o Hl)
    as (_ & Ht & Hr).
  unfold capture_guard. rewrite Ht, Hr. apply capture_guard_body_throws.
Qed.

(** X7: what [current_capture] answers around [capture_guard].  When a guard
    with a callback is returned and no capture was active, the manager
    becomes the current capture; when one was active, it stays the current
    capture.  On every other outcome the answer is as before. *)
Theorem current_capture_after_capture_guard this stream w o :
  heap w !! this = Some o ->
  let run := capture_guard rt this stream w in
  match fst run with
  | Ok (Some _) =>
      current_capture (thread (snd run)) =
        if decide (s_current_captures (thread w) = []) then this
        else current_capture (thread w)
  | _ => current_capture (thread (snd run)) = current_capture (thread w)
  end.
Proof.
  intros Hl run. subst run.
  destruct (on_object_lookup this (capture_guard_body rt this stream) w o Hl)
    as (_ & Ht & Hr).
  destruct (capture_guard_body_push this stream o (thread w)) as (new & _ & Hstack & _).
  unfold capture_guard. rewrite Ht, Hr. unfold current_capture.
  destruct (fst (capture_guard_body rt this stream (o, thread w))) as [[g|]|e|];
    try (by rewrite Hstack).
  destruct Hstack as (_ & -> & _).
  by destruct (s_current_captures (thread w)).
Qed.

(** ** More on the finalize action *)

(** X8: when [cudaStreamEndCapture] fails, the finalize action throws that
    error and stops there: the manager stays on the deque, its
    synchronization flag and instance are as before, and [m_graph] is what
    the call stored. *)
Theorem finalize_end_capture_failed this stream w o r g d1 :
  heap w !! this = Some o ->
  cudaStreamEndCapture rt stream (driver (thread w)) = (r, g, d1) ->
  r <> cudaSuccess ->
  finalize rt this stream w =
    (Throw (cuda_check_error "cudaStreamEndCapture(stream, &m_graph)" r),
     {| heap := <[this := with_m_graph g o]> (heap w);
        thread :=
          {| s_current_captures := s_current_captures (thread w);
             driver := d1;
             api_calls := api_calls (thread w) ++ [(StreamEndCapture stream, r)];
             warnings := warnings (thread w) |} |}).
Proof.
  intros Hl Hend Hr. apply on_object_run with o; [done|].
  by apply finalize_body_end_failed.
Qed.

(** X9: the first finalize of a manager, which holds no instance yet.  With
    a graph recorded, the instance is built from it without any attempt to
    update, and launched on the stream; when [cudaGraphInstantiate] fails its
    error is thrown and nothing is launched. *)
Theorem finalize_first_instance this stream w o g d1 d2 ri e' d3 :
  heap w !! this = Some o ->
  last (s_current_captures (thread w)) = Some this ->
  cudaStreamEndCapture rt stream (driver (thread w)) = (cudaSuccess, g, d1) ->
  g <> nullptr ->
  m_graph_instance o = nullptr ->
  (if m_synchronize_when_capture_done o
   then cudaDeviceSynchronize rt d1 = (cudaSuccess, d2) else d2 = d1) ->
  cudaGraphInstantiate rt g d2 = (ri, e', d3) ->
  let before :=
    api_calls (thread w) ++
    [(StreamEndCapture stream, cudaSuccess)] ++
    synchronize_trace (m_synchronize_when_capture_done o) in
  let run := finalize rt this stream w in
  heap (snd run) !! this =
    Some {| m_graph := g; m_graph_instance := e';
            m_synchronize_when_capture_done := false |} /\
  s_current_captures (thread (snd run)) = removelast (s_current_captures (thread w)) /\
  (ri <> cudaSuccess ->
   fst run =
     Throw (cuda_check_error
              "cudaGraphInstantiate(&m_graph_instance, m_graph, NULL, NULL, 0)" ri) /\
   api_calls (thread (snd run)) = before ++ [(GraphInstantiate g, ri)]) /\
  (forall rl d4,
     ri = cudaSuccess ->
     cudaGraphLaunch rt e' stream d3 = (rl, d4) ->
     api_calls (thread (snd run)) =
       before ++ [(GraphInstantiate g, cudaSuccess); (GraphLaunch e' stream, rl)] /\
     (rl = cudaSuccess -> fst run = Ok tt)).
Proof.
  intros Hl Hlast Hend Hg He Hsync Hinst before run. subst before run.
  unfold finalize, on_object. rewrite Hl.
  unfold finalize_body. unfold_monad. cbn. rewrite Hend. cbn.
  rewrite Hlast, N.eqb_refl. cbn.
  destruct o as [g0 e0 sync]. cbn in *. subst e0.
  apply N.eqb_neq in Hg. unfold is_null.
  destruct sync; cbn; [rewrite Hsync; cbn|subst d2];
    rewrite Hg; cbn; rewrite Hinst; cbn.
  all: destruct (N.eqb ri cudaSuccess) eqn:Hri; cbn; statuses.
  all: try (subst ri;
            destruct (cudaGraphLaunch rt e' stream d3) as [rl0 d40] eqn:Hlaunch; cbn;
            destruct (N.eqb rl0 cudaSuccess) eqn:Hrl; cbn).
  all: rewrite lookup_insert_eq; (split; [done|]); (split; [done|]).
  all: split;
    [ intros Hc; first [ by destruct Hc | split; [done|by rewrite <- ?app_assoc] ]
    | intros rl d4 Hc; first [ by destruct Hri | idtac ] ].
  all: intros [= <- <-]; rewrite <- ?app_assoc; cbn; (split; [done|]);
    statuses; first [ done | by intros -> ].
Qed.

(** X10: when [cudaDeviceSynchronize] fails in the finalize action, its
    error is thrown and the flag stays set; the manager has been popped
    already, and the graph just recorded is neither instantiated nor
    launched. *)
Theorem finalize_synchronize_failed this stream w o g d1 r d2 :
  heap w !! this = Some o ->
  last (s_current_captures (thread w)) = Some this ->
  cudaStreamEndCapture rt stream (driver (thread w)) = (cudaSuccess, g, d1) ->
  m_synchronize_when_capture_done o = true ->
  cudaDeviceSynchronize rt d1 = (r, d2) ->
  r <> cudaSuccess ->
  finalize rt this stream w =
    (Throw (cuda_check_error "cudaDeviceSynchronize()" r),
     {| heap := <[this := with_m_graph g o]> (heap w);
        thread :=
          {| s_current_captures := removelast (s_current_captures (thread w));
             driver := d2;
             api_calls :=
               api_calls (thread w) ++
               [(StreamEndCapture stream, cudaSuccess); (DeviceSynchronize, r)];
             warnings := warnings (thread w) |} |}).
Proof.
  intros Hl Hlast Hend Hflag Hsync Hr. apply N.eqb_neq in Hr.
  apply on_object_run with o; [done|].
  unfold finalize_body. unfold_monad. cbn. rewrite Hend. cbn.
  rewrite Hlast, N.eqb_refl. cbn. rewrite Hflag. cbn. rewrite Hsync. cbn.
  rewrite Hr. unfold with_call, with_captures. cbn. by rewrite <- !app_assoc.
Qed.

Lemma finalize_body_returns this stream o t :
  fst (finalize_body rt this stream (o, t)) = Ok tt ->
  let run := finalize_body rt this stream (o, t) in
  let o' := fst (snd run) in
  last (s_current_captures t) = Some this /\
  s_current_captures (snd (snd run)) = removelast (s_current_captures t) /\
  m_synchronize_when_capture_done o' = false /\
  exists new,
    api_calls (snd (snd run)) = api_calls t ++ new /\
    forallb succeeded new = true /\
    (m_graph o' = nullptr ->
     m_graph_instance o' = nullptr /\ count is_launch new = 0) /\
    (m_graph o' <> nullptr ->
     last new = Some (GraphLaunch (m_graph_instance o') stream, cudaSuccess) /\
     count is_launch new = 1).
Proof.
  unfold finalize_body. unfold_monad. cbn. unfold is_null.
  all_cases; try discriminate; intros _; statuses; subst;
    unfold with_call, with_captures; cbn;
    (repeat split; try done); eexists;
    (split; [trace_extension|]); cbn;
    (split; [done|]); split; intros ?; try done; by split.
Qed.

(** X11: what a finalize action that returns has done, whatever the
    runtime: the manager was the back of the deque and has been popped, the
    synchronization flag is clear, and every call made returned
    [cudaSuccess].  Either no graph was recorded, and then the manager holds
    no instance and nothing was launched; or the last call is the one launch
    made, of the instance the manager now holds, on the stream. *)
Theorem finalize_returns this stream w o :
  heap w !! this = Some o ->
  fst (finalize rt this stream w) = Ok tt ->
  let w' := snd (finalize rt this stream w) in
  last (s_current_captures (thread w)) = Some this /\
  s_current_captures (thread w') = removelast (s_current_captures (thread w)) /\
  exists o' new,
    heap w' !! this = Some o' /\
    m_synchronize_when_capture_done o' = false /\
    api_calls (thread w') = api_calls (thread w) ++ new /\
    forallb succeeded new = true /\
    (m_graph o' = nullptr ->
     m_graph_instance o' = nullptr /\ count is_launch new = 0) /\
    (m_graph o' <> nullptr ->
     last new = Some (GraphLaunch (m_graph_instance o') stream, cudaSuccess) /\
     count is_launch new = 1).
Proof.
  intros Hl.
  destruct (on_object_lookup this (finalize_body rt this stream) w o Hl)
    as (Hl' & Ht & Hr).
  unfold finalize. rewrite Ht, Hr. intros Hok.
  destruct (finalize_body_returns this stream o (thread w) Hok)
    as (Hlast & Hpop & Hflag & new & Htrace & Hall & Hnone & Hsome).
  split; [done|]. split; [done|].
  eexists. exists new. split; [exact Hl'|]. done.
Qed.

Lemma finalize_body_throws this stream o t e :
  fst (finalize_body rt this stream (o, t)) = Throw e ->
  let run := finalize_body rt this stream (o, t) in
  (e = ordering_violation /\
   (exists top, last (s_current_captures t) = Some top /\ top <> this) /\
   api_calls (snd (snd run)) = api_calls t ++ [(StreamEndCapture stream, cudaSuccess)]) \/
  (exists expr r c new,
     e = cuda_check_error expr r /\ r <> cudaSuccess /\
     api_calls (snd (snd run)) = api_calls t ++ new ++ [(c, r)] /\
     forallb succeeded new = true).
Proof.
  unfold finalize_body. unfold_monad. cbn. unfold is_null.
  all_cases; try discriminate; intros [= <-]; statuses; subst;
    unfold with_call, with_captures; cbn;
    first
      [ left; split; [done|]; split; [by eexists|done]
      | right; do 3 eexists;
        first
          [ exists []; by repeat split
          | eexists [_]; repeat split; [done|by rewrite <- ?app_assoc|done]
          | eexists [_; _]; repeat split; [done|by rewrite <- ?app_assoc|done]
          | eexists [_; _; _]; repeat split; [done|by rewrite <- ?app_assoc|done]
          | eexists [_; _; _; _]; repeat split; [done|by rewrite <- ?app_assoc|done]
          | eexists [_; _; _; _; _]; repeat split; [done|by rewrite <- ?app_assoc|done] ] ].
Qed.

(** X12: the two ways in which the finalize action throws.  Either it is
    the ordering violation: recording was stopped with success, and the back
    of the deque is another manager.  Or it is the error of a runtime call:
    the status thrown is not [cudaSuccess], it is the status of the last call
    made, and every call before it had succeeded. *)
Theorem finalize_throws this stream w o e :
  heap w !! this = Some o ->
  fst (finalize rt this stream w) = Throw e ->
  let w' := snd (finalize rt this stream w) in
  (e = ordering_violation /\
   (exists top, last (s_current_captures (thread w)) = Some top /\ top <> this) /\
   api_calls (thread w') =
     api_calls (thread w) ++ [(StreamEndCapture stream, cudaSuccess)]) \/
  (exists expr r c new,
     e = cuda_check_error expr r /\ r <> cudaSuccess /\
     api_calls (thread w') = api_calls (thread w) ++ new ++ [(c, r)] /\
     forallb succeeded new = true).
Proof.
  intros Hl.
  destruct (on_object_lookup this (finalize_body rt this stream) w o Hl)
    as (_ & Ht & Hr).
  unfold finalize. rewrite Ht, Hr. apply finalize_body_throws.
Qed.

Lemma finalize_body_never this stream o t :
  let run := finalize_body rt this stream (o, t) in
  warnings (snd (snd run)) = warnings t /\
  exists new,
    api_calls (snd (snd run)) = api_calls t ++ new /\
    count is_graph_destroy new = 0 /\ count is_begin_capture new = 0 /\
    count is_query new = 0 /\
    count is_end_capture new = 1 /\
    count is_instantiate new <= 1 /\ count is_launch new <= 1.
Proof.
  unfold finalize_body. unfold_monad. cbn.
  all_cases; unfold with_call, with_captures; cbn; (split; [done|]); eexists;
    (split; [trace_extension|]); unfold count; cbn; repeat split; lia.
Qed.

(** X13: whatever the runtime answers, the finalize action stops the
    recording once, instantiates at most once and launches at most once; it
    never destroys a recorded graph, never starts a recording, and logs
    nothing.  The trace it found is a prefix of the trace it leaves. *)
Theorem finalize_never this stream w o :
  heap w !! this = Some o ->
  let w' := snd (finalize rt this stream w) in
  warnings (thread w') = warnings (thread w) /\
  exists new,
    api_calls (thread w') = api_calls (thread w) ++ new /\
    count is_graph_destroy new = 0 /\ count is_begin_capture new = 0 /\
    count is_query new = 0 /\
    count is_end_capture new = 1 /\
    count is_instantiate new <= 1 /\ count is_launch new <= 1.
Proof.
  intros Hl w'. subst w'.
  destruct (on_object_lookup this (finalize_body rt this stream) w o Hl)
    as (_ & Ht & _).
  unfold finalize. rewrite Ht. apply finalize_body_never.
Qed.

(** X14: what [current_capture] answers after a finalize action that
    returned: [nullptr] when the manager was the only capture active, and the
    same capture as before when its capture was nested in another. *)
Theorem current_capture_after_finalize this stream w o :
  heap w !! this = Some o ->
  fst (finalize rt this stream w) = Ok tt ->
  current_capture (thread (snd (finalize rt this stream w))) =
    if decide (length (s_current_captures (thread w)) = 1) then nullptr
    else current_capture (thread w).
Proof.
  intros Hl.
  destruct (on_object_lookup this (finalize_body rt this stream) w o Hl)
    as (_ & Ht & Hr).
  unfold finalize. rewrite Ht, Hr. intros Hok.
  destruct (finalize_body_returns this stream o (thread w) Hok) as (Hlast & Hpop & _).
  unfold current_capture. rewrite Hpop.
  destruct (s_current_captures (thread w)) as [|p [|q rest]]; [done..|].
  by case_decide.
Qed.

(** ** More on [reset] and [schedule_synchronize] *)

(** X15: when [cudaGraphDestroy] fails, [reset] throws its error before
    anything is cleared, and the instance is not destroyed: the manager holds
    what it held. *)
Theorem reset_graph_destroy_failed this w o r d1 :
  heap w !! this = Some o ->
  m_graph o <> nullptr ->
  cudaGraphDestroy rt (m_graph o) (driver (thread w)) = (r, d1) ->
  r <> cudaSuccess ->
  reset rt this w =
    (Throw (cuda_check_error "cudaGraphDestroy(m_graph)" r),
     {| heap := heap w;
        thread := with_call (GraphDestroy (m_graph o)) r d1 (thread w) |}).
Proof.
  intros Hl Hg Hd Hr. apply N.eqb_neq in Hg, Hr. unfold reset.
  rewrite (on_object_run this (reset_body rt) w o
             (Throw (cuda_check_error "cudaGraphDestroy(m_graph)" r)) o
             (with_call (GraphDestroy (m_graph o)) r d1 (thread w)) Hl).
  - by rewrite insert_id.
  - unfold reset_body. unfold_monad. cbn. unfold is_null. rewrite Hg. cbn.
    rewrite Hd. cbn. by rewrite Hr.
Qed.

(** X16: the run of [reset] once the graph, if any, has been destroyed.
    The graph is destroyed before the instance, each only if held;
    [m_graph] is null afterwards, and [m_graph_instance] is null unless
    [cudaGraphExecDestroy] failed, in which case its error is thrown.  The
    synchronization flag, the deque and the warnings are as before. *)
Theorem reset_run this w o d1 r2 d2 :
  heap w !! this = Some o ->
  (if is_null (m_graph o) then d1 = driver (thread w)
   else cudaGraphDestroy rt (m_graph o) (driver (thread w)) = (cudaSuccess, d1)) ->
  (if is_null (m_graph_instance o) then r2 = cudaSuccess /\ d2 = d1
   else cudaGraphExecDestroy rt (m_graph_instance o) d1 = (r2, d2)) ->
  reset rt this w =
    (if N.eqb r2 cudaSuccess then Ok tt
     else Throw (cuda_check_error "cudaGraphExecDestroy(m_graph_instance)" r2),
     {| heap :=
          <[this :=
              {| m_graph := nullptr;
                 m_graph_instance :=
                   if N.eqb r2 cudaSuccess then nullptr else m_graph_instance o;
                 m_synchronize_when_capture_done :=
                   m_synchronize_when_capture_done o |}]> (heap w);
        thread :=
          {| s_current_captures := s_current_captures (thread w);
             driver := d2;
             api_calls :=
               api_calls (thread w) ++
               (if is_null (m_graph o) then []
                else [(GraphDestroy (m_graph o), cudaSuccess)]) ++
               (if is_null (m_graph_instance o) then []
                else [(GraphExecDestroy (m_graph_instance o), r2)]);
             warnings := warnings (thread w) |} |}).
Proof.
  intros Hl Hd He. apply on_object_run with o; [done|].
  unfold reset_body. unfold_monad. cbn.
  destruct o as [g e sync]. destruct (thread w) as [st d calls ws]. cbn in *.
  destruct (is_null g) eqn:Hg; cbn; [subst d1|rewrite Hd; cbn];
    (destruct (is_null e) eqn:Hnull; cbn;
     [destruct He as [-> ->]|rewrite He; cbn; destruct (N.eqb r2 cudaSuccess); cbn]);
    unfold with_call, with_m_graph, with_m_graph_instance; cbn;
    unfold is_null in *; statuses; subst; rewrite <- ?app_assoc, ?app_nil_r; done.
Qed.

(** X17: [schedule_synchronize] calls nothing and touches nothing but the
    flag of its manager, which it sets; the other managers are as before,
    and calling it twice is calling it once. *)
Theorem schedule_synchronize_idempotent this w :
  thread (snd (schedule_synchronize this w)) = thread w /\
  (forall o, heap w !! this = Some o ->
     fst (schedule_synchronize this w) = Ok tt /\
     heap (snd (schedule_synchronize this w)) !! this =
       Some (with_m_synchronize true o)) /\
  (forall other, other <> this ->
     heap (snd (schedule_synchronize this w)) !! other = heap w !! other) /\
  (schedule_synchronize this ;; schedule_synchronize this) w =
    schedule_synchronize this w.
Proof.
  destruct (heap w !! this) as [o|] eqn:Hl.
  - rewrite (schedule_synchronize_run this w o Hl). cbn.
    split; [done|]. split.
    { intros o' [= <-]. by rewrite lookup_insert_eq. }
    split.
    { intros other Hne. by rewrite lookup_insert_ne. }
    unfold bind. rewrite (schedule_synchronize_run this w o Hl).
    erewrite schedule_synchronize_run by apply lookup_insert_eq.
    cbn. by rewrite insert_insert_eq.
  - assert (Hs : schedule_synchronize this w = (Undefined, w))
      by (by apply on_object_dangling).
    unfold bind. rewrite !Hs. cbn.
    split; [done|]. split; [done|]. by split.
Qed.

(** ** A whole scope *)

(** X18: on a runtime where nothing is being captured and no call fails, a
    scope opened by [capture_guard] on a stream of its own and closed by its
    guard returns; inside it the manager is the back of the deque, and
    afterwards the deque is what it was, whatever captures were active
    around it. *)
Theorem capture_scope_restores_stack this stream w o :
  permissive rt ->
  heap w !! this = Some o ->
  stream <> nullptr -> stream <> cudaStreamLegacy ->
  exists inside,
    capture_guard rt this stream w = (Ok (Some (finalize rt this stream)), inside) /\
    s_current_captures (thread inside) = s_current_captures (thread w) ++ [this] /\
    fst (capture_scope rt this stream w) = Ok tt /\
    s_current_captures (thread (snd (capture_scope rt this stream w))) =
      s_current_captures (thread w).
Proof.
  intros P Hl Hn Hleg.
  destruct (capture_guard_permissive this stream w o P Hl Hn Hleg)
    as (inside & Hrun & Hst & Hheap).
  exists inside. split; [done|]. split; [done|].
  unfold capture_scope, bind. rewrite Hrun. cbn.
  assert (Hl1 : heap inside !! this = Some (with_m_graph nullptr o))
    by (rewrite Hheap; apply lookup_insert_eq).
  assert (Hlast : last (s_current_captures (thread inside)) = Some this)
    by (rewrite Hst; apply last_snoc).
  destruct (on_object_lookup this (finalize_body rt this stream) inside _ Hl1)
    as (_ & Ht & Hr).
  unfold finalize. rewrite Ht, Hr.
  pose proof (permissive_end rt P stream (driver (thread inside))) as Hend.
  destruct (cudaStreamEndCapture rt stream (driver (thread inside)))
    as [[r g] d1] eqn:Hcall. cbn in Hend. subst r.
  destruct (finalize_body_in_order this stream (with_m_graph nullptr o)
              (thread inside) g d1 Hcall Hlast) as (_ & _ & Hpop).
  split.
  - by apply finalize_body_permissive.
  - by rewrite Hpop, Hst, removelast_last.
Qed.

Lemma destructor_body_frame o t :
  let run := destructor_body rt cuda_check_what (o, t) in
  s_current_captures (snd (snd run)) = s_current_captures t /\
  m_synchronize_when_capture_done (fst (snd run)) = m_synchronize_when_capture_done o /\
  exists new,
    api_calls (snd (snd run)) = api_calls t ++ new /\ length new <= 2.
Proof.
  unfold destructor_body, reset_body. unfold_monad. cbn.
  all_cases; unfold with_call, with_warning; cbn; (split; [done|]); (split; [done|]);
    eexists; (split; [trace_extension|]); cbn; lia.
Qed.

(** X19: the destructor does not look at the deque: a manager destroyed
    while its capture is open stays on it, so that [current_capture] answers
    as before; the synchronization flag is not touched either, and at most
    two runtime calls are made. *)
Theorem destructor_leaves_deque this w o :
  heap w !! this = Some o ->
  let w' := snd (destructor rt cuda_check_what this w) in
  s_current_captures (thread w') = s_current_captures (thread w) /\
  current_capture (thread w') = current_capture (thread w) /\
  (exists o', heap w' !! this = Some o' /\
     m_synchronize_when_capture_done o' = m_synchronize_when_capture_done o) /\
  exists new,
    api_calls (thread w') = api_calls (thread w) ++ new /\ length new <= 2.
Proof.
  intros Hl w'. subst w'.
  destruct (on_object_lookup this (destructor_body rt cuda_check_what) w o Hl)
    as (Hl' & Ht & _).
  destruct (destructor_body_frame o (thread w)) as (Hst & Hf & new & Htrace & Hlen).
  unfold destructor, current_capture. rewrite Ht, Hst.
  split; [done|]. split; [done|]. split.
  - eexists. split; [exact Hl'|exact Hf].
  - by exists new.
Qed.

End Properties.

(** * The properties on concrete runs *)

Lemma benign_permissive : permissive (scripted_runtime benign).
Proof. by constructor. Qed.

(** The first scenario of the specification: a new manager, one scope. *)
Example first_scope :
  let w := snd (capture_scope (scripted_runtime benign) 64 65
                  (one_manager CudaGraph_new [])) in
  heap w !! 64%N = Some warm /\
  s_current_captures (thread w) = [] /\
  last (api_calls (thread w)) = Some (GraphLaunch 20 65, cudaSuccess).
Proof. by vm_compute. Qed.

(** Two managers, the scope of [128] nested in that of [64]. *)
Example nested_scopes_closed_in_order :
  let rt := scripted_runtime benign in
  let run :=
    (let* a := capture_guard rt 64 65 in
     let* b := capture_guard rt 128 129 in
     ScopeGuard_release b ;; ScopeGuard_release a) (two_managers []) in
  fst run = Ok tt /\ s_current_captures (thread (snd run)) = [].
Proof. by vm_compute. Qed.

Example nested_scopes_closed_out_of_order :
  let rt := scripted_runtime benign in
  let run :=
    (let* a := capture_guard rt 64 65 in
     let* b := capture_guard rt 128 129 in
     ScopeGuard_release a ;; ScopeGuard_release b) (two_managers []) in
  fst run = Throw ordering_violation /\
  s_current_captures (thread (snd run)) = [64; 128]%N.
Proof. by vm_compute. Qed.

(** C1, as stated, fails: with the scope of [128] nested in that of [64],
    [current_capture] is [64], the capture opened first, and not [128], the
    most recently opened one. *)
Lemma current_capture_not_innermost :
  let rt := scripted_runtime benign in
  let w := snd ((capture_guard rt 64 65 ;; capture_guard rt 128 129)
                  (two_managers [])) in
  s_current_captures (thread w) = [64; 128]%N /\
  current_capture (thread w) = 64%N /\
  innermost_capture (thread w) = 128%N /\
  current_capture (thread w) <> innermost_capture (thread w).
Proof. vm_compute. by repeat split. Qed.

Lemma current_capture_front_witness :
  current_capture (idle_thread []) = nullptr /\
  current_capture (idle_thread [64; 128]%N) = 64%N /\
  current_capture (idle_thread [64]%N) = innermost_capture (idle_thread [64]%N) /\
  (NoDup [64; 128]%N /\
   current_capture (idle_thread [64; 128]%N) <> innermost_capture (idle_thread [64; 128]%N)).
Proof.
  split; [|split; [|split]].
  - destruct (current_capture_front (idle_thread [])) as (Hempty & _).
    apply Hempty. reflexivity.
  - destruct (current_capture_front (idle_thread [64; 128]%N)) as (_ & Hfront & _).
    apply Hfront with [128%N]. reflexivity.
  - destruct (current_capture_front (idle_thread [64]%N)) as (_ & _ & _ & Hone & _).
    apply Hone. cbn. lia.
  - assert (Hnodup : NoDup [64; 128]%N).
    { apply NoDup_cons. split; [|apply NoDup_singleton].
      intros Hin. apply list_elem_of_In in Hin. cbn in Hin.
      destruct Hin as [Hin|[]]. discriminate Hin. }
    split; [exact Hnodup|].
    destruct (current_capture_front (idle_thread [64; 128]%N))
      as (_ & _ & _ & _ & Honly).
    intros Heq. specialize (Honly Hnodup Heq). cbn in Honly. lia.
Defined.

Lemma capture_guard_default_stream_witness :
  heap (one_manager warm []) !! 64%N = Some warm /\
  capture_guard (scripted_runtime benign) 64 cudaStreamLegacy (one_manager warm [])
    = (Ok None, one_manager warm []).
Proof.
  split; [reflexivity|].
  destruct (capture_guard_default_stream (scripted_runtime benign) 64
              cudaStreamLegacy (one_manager warm []) warm)
    as (g & Hrun & -> & _); [reflexivity|by right|exact Hrun].
Defined.

Lemma reset_idempotent_witness :
  let rt := scripted_runtime benign in
  reset rt 64 (one_manager CudaGraph_new []) = (Ok tt, one_manager CudaGraph_new []) /\
  heap (snd (reset rt 64 (one_manager warm []))) !! 64%N = Some CudaGraph_new /\
  (reset rt 64 ;; reset rt 64) (one_manager warm []) = reset rt 64 (one_manager warm []).
Proof.
  intros rt.
  destruct (reset_idempotent rt 64 (one_manager CudaGraph_new [])) as (Hnoop & _ & _).
  destruct (reset_idempotent rt 64 (one_manager warm [])) as (_ & Hnull & Htwice).
  split; [|split].
  - apply (Hnoop CudaGraph_new); reflexivity.
  - destruct (Hnull (snd (reset rt 64 (one_manager warm []))))
      as ([g e s] & Hl & Hg & He); [reflexivity|].
    cbn in Hg, He. subst g e. rewrite Hl. vm_compute in Hl.
    by injection Hl as <-.
  - exact Htwice.
Defined.

Lemma capture_guard_proceeds_witness :
  let rt := scripted_runtime benign in
  let run := capture_guard rt 64 65 (one_manager warm []) in
  heap (one_manager warm []) !! 64%N = Some warm /\
  fst run = Ok (Some (finalize rt 64 65)) /\
  heap (snd run) !! 64%N = Some (with_m_graph nullptr warm) /\
  s_current_captures (thread (snd run)) = [64%N] /\
  api_calls (thread (snd run)) =
    [(StreamIsCapturing 65, cudaSuccess);
     (StreamIsCapturing cudaStreamLegacy, cudaSuccess);
     (GraphDestroy 17, cudaSuccess);
     (StreamBeginCapture 65 cudaStreamCaptureModeRelaxed, cudaSuccess)].
Proof.
  intros rt run. subst run. split; [reflexivity|].
  rewrite (capture_guard_proceeds rt 64 65 (one_manager warm []) warm 0 0 0 0)%N;
    [|reflexivity|discriminate|discriminate|reflexivity..].
  by repeat split.
Defined.

(** C7, as stated, fails: the manager left by a first scope holds a graph
    and the instance built from it, none of them stale; the next
    [capture_guard] destroys that graph all the same. *)
Lemma capture_guard_discards_valid_graph :
  let rt := scripted_runtime benign in
  let w1 := snd (capture_scope rt 64 65 (one_manager CudaGraph_new [])) in
  heap w1 !! 64%N = Some warm /\
  stale_executable warm = false /\
  ~ discards_only_when_stale (capture_guard rt 64 65) 64 w1.
Proof.
  intros rt w1. split; [reflexivity|]. split; [reflexivity|].
  intros Hclaim. specialize (Hclaim warm eq_refl). cbn in Hclaim.
  enough (false = true) by discriminate. apply Hclaim.
  vm_compute. apply list_elem_of_In. cbn. tauto.
Qed.

Lemma capture_guard_push_after_begin_witness :
  let run := capture_guard (scripted_runtime begin_refused) 64 65 (two_managers [128%N]) in
  heap (two_managers [128%N]) !! 64%N = Some CudaGraph_new /\
  fst run =
    Throw (cuda_check_error
             "cudaStreamBeginCapture(stream, cudaStreamCaptureModeRelaxed)" 900) /\
  s_current_captures (thread (snd run)) = [128%N].
Proof.
  intros run. subst run. split; [reflexivity|].
  destruct (capture_guard_push_after_begin (scripted_runtime begin_refused) 64 65
              (two_managers [128%N]) CudaGraph_new eq_refl)
    as (new & Htrace & Hstack & Hfail).
  assert (Hnew : last new = Some (StreamBeginCapture 65 cudaStreamCaptureModeRelaxed, 900%N)).
  { vm_compute in Htrace. by subst new. }
  assert (Hthrow := Hfail 900%N Hnew ltac:(discriminate)).
  rewrite Hthrow in Hstack |- *.
  split; [reflexivity|exact Hstack].
Defined.

Lemma finalize_reverse_order_witness :
  let rt := scripted_runtime benign in
  let opened := snd (capture_all rt N.succ [64; 128]%N (two_managers [])) in
  fst (finalize rt 64 65 (two_managers [64; 128]%N)) = Throw ordering_violation /\
  s_current_captures (thread (snd (finalize rt 128 129 (two_managers [64; 128]%N))))
    = [64%N] /\
  fst (release_all [Some (finalize rt 128 129); Some (finalize rt 64 65)] opened) = Ok tt /\
  fst (release_all [Some (finalize rt 64 65); Some (finalize rt 128 129)] opened)
    = Throw ordering_violation.
Proof.
  intros rt opened. subst opened.
  destruct (finalize_reverse_order rt) as [Hstep Hseq].
  split; [|split].
  - destruct (Hstep 64 65 (two_managers [64; 128]) CudaGraph_new 128 17 1)%N
      as (Hiff & _); [reflexivity..|].
    apply Hiff. discriminate.
  - destruct (Hstep 128 129 (two_managers [64; 128]) CudaGraph_new 128 17 1)%N
      as (_ & _ & Hpop); [reflexivity..|].
    by rewrite Hpop.
  - destruct (Hseq N.succ [64; 128]%N [128; 64]%N (two_managers []))
      as (w1 & Hrun & _ & Hiff & _).
    + apply benign_permissive.
    + reflexivity.
    + intros m Hm. apply list_elem_of_In in Hm.
      destruct Hm as [<-|[<-|[]]]; (split; [by eexists|split; discriminate]).
    + apply perm_swap.
    + destruct (Hseq N.succ [64; 128]%N [64; 128]%N (two_managers []))
        as (w2 & Hrun2 & _ & _ & Hthrow).
      * apply benign_permissive.
      * reflexivity.
      * intros m Hm. apply list_elem_of_In in Hm.
        destruct Hm as [<-|[<-|[]]]; (split; [by eexists|split; discriminate]).
      * reflexivity.
      * rewrite Hrun. rewrite Hrun in Hrun2. injection Hrun2 as <-.
        split; [by apply Hiff|]. by apply Hthrow.
Defined.

Lemma finalize_capture_failed_witness :
  let rt := scripted_runtime capture_lost in
  let run := finalize rt 64 65 (one_manager (recording true) [64%N]) in
  cudaStreamEndCapture rt 65 0%N = (cudaSuccess, nullptr, 1%N) /\
  fst run = Ok tt /\
  heap (snd run) !! 64%N = Some CudaGraph_new /\
  api_calls (thread (snd run)) =
    [(StreamEndCapture 65, cudaSuccess); (DeviceSynchronize, cudaSuccess);
     (GraphExecDestroy 12, cudaSuccess)].
Proof.
  intros rt run. subst run. split; [reflexivity|].
  destruct (finalize_capture_failed rt 64 65 (one_manager (recording true) [64%N])
              (recording true) 1 1 1)%N
    as (w' & Hrun & Hheap & Htrace & _); [reflexivity..|].
  rewrite Hrun. by repeat split.
Defined.

Lemma finalize_synchronizes_once_witness :
  let rt := scripted_runtime benign in
  let w0 := one_manager (recording false) [64%N] in
  let w' := snd ((schedule_synchronize 64 ;; finalize rt 64 65) w0) in
  heap w0 !! 64%N = Some (recording false) /\
  (exists rest,
     api_calls (thread w') =
       [(StreamEndCapture 65, cudaSuccess); (DeviceSynchronize, cudaSuccess)] ++ rest /\
     count is_synchronize rest = 0) /\
  synchronize_free 64 w' (snd (capture_guard rt 64 65 w')) /\
  synchronize_free 64 (snd (capture_guard rt 64 65 w'))
    (snd (capture_scope rt 64 65 w')).
Proof.
  intros rt w0 w'. split; [reflexivity|].
  destruct (finalize_synchronizes_once rt 64 65 w0 (recording false) 17 1 1)%N
    as (_ & Htrace & (o' & Hl & Hclear) & Hnext); [reflexivity..|].
  split; [exact Htrace|].
  destruct (Hnext 65%N w' o' Hl Hclear) as [Hguard _].
  split; [exact Hguard|].
  destruct Hguard as (_ & o2 & Hl2 & Hclear2).
  destruct (Hnext 65%N _ o2 Hl2 Hclear2) as [_ Hfinal].
  exact Hfinal.
Defined.

Lemma finalize_update_or_rebuild_witness :
  let w := one_manager (recording false) [64%N] in
  let kept := finalize (scripted_runtime benign) 64 65 w in
  let rebuilt := finalize (scripted_runtime update_refused) 64 65 w in
  heap w !! 64%N = Some (recording false) /\
  (fst kept = Ok tt /\
   heap (snd kept) !! 64%N =
     Some {| m_graph := 17; m_graph_instance := 12;
             m_synchronize_when_capture_done := false |} /\
   api_calls (thread (snd kept)) =
     [(StreamEndCapture 65, cudaSuccess); (GraphExecUpdate 12 17, cudaSuccess);
      (GraphLaunch 12 65, cudaSuccess)]) /\
  (fst rebuilt = Ok tt /\
   heap (snd rebuilt) !! 64%N =
     Some {| m_graph := 17; m_graph_instance := 20;
             m_synchronize_when_capture_done := false |} /\
   api_calls (thread (snd rebuilt)) =
     [(StreamEndCapture 65, cudaSuccess); (GraphExecUpdate 12 17, cudaSuccess);
      (GraphExecDestroy 12, cudaSuccess); (GraphInstantiate 17, cudaSuccess);
      (GraphLaunch 20 65, cudaSuccess)]).
Proof.
  intros w kept rebuilt. subst kept rebuilt. split; [reflexivity|]. split.
  - destruct (finalize_update_or_rebuild (scripted_runtime benign) 64 65 w
                (recording false) 17 12 1 1)%N as [Hkeep _];
      [reflexivity|reflexivity|reflexivity|discriminate|reflexivity|discriminate
      |reflexivity|].
    destruct (Hkeep 1 cudaSuccess 1)%N as (Hheap & Htrace & Hok); [reflexivity..|].
    split; [by apply Hok|]. split; [exact Hheap|exact Htrace].
  - destruct (finalize_update_or_rebuild (scripted_runtime update_refused) 64 65 w
                (recording false) 17 12 1 1)%N as [_ Hrebuild];
      [reflexivity|reflexivity|reflexivity|discriminate|reflexivity|discriminate
      |reflexivity|].
    destruct (Hrebuild 2 1 1 20 2 cudaSuccess 2)%N as (Hheap & Htrace & Hok);
      [reflexivity|discriminate|reflexivity..|].
    split; [by apply Hok|]. split; [exact Hheap|exact Htrace].
Defined.

Lemma destructor_never_throws_witness :
  let quiet := destructor (scripted_runtime shutting_down) test_check_what 64
                 (one_manager warm []) in
  let loud := destructor (scripted_runtime destroy_refused) test_check_what 64
                (one_manager warm []) in
  let clean := destructor (scripted_runtime benign) test_check_what 64
                 (one_manager warm []) in
  heap (one_manager warm []) !! 64%N = Some warm /\
  (fst quiet = Ok tt /\ warnings (thread (snd quiet)) = [] /\
   api_calls (thread (snd quiet)) = [(GraphDestroy 17, cudaErrorCudartUnloading)] /\
   heap (snd quiet) !! 64%N = Some warm) /\
  (fst loud = Ok tt /\
   warnings (thread (snd loud)) =
     ["Could not destroy cuda graph: cudaGraphDestroy(m_graph) failed: unspecified launch failure"%string]) /\
  (fst clean = Ok tt /\
   api_calls (thread (snd clean)) =
     [(GraphDestroy 17, cudaSuccess); (GraphExecDestroy 20, cudaSuccess)] /\
   heap (snd clean) !! 64%N = Some CudaGraph_new).
Proof.
  intros quiet loud clean. subst quiet loud clean.
  split; [reflexivity|]. split; [|split].
  - destruct (destructor_never_throws (scripted_runtime shutting_down) test_check_what
                64 (one_manager warm []) warm eq_refl)
      as (Hok & _ & _ & _ & _ & Hwarn & _ & Hrelease).
    destruct (Hrelease cudaErrorCudartUnloading 0%N cudaErrorCudartUnloading 0%N
                eq_refl eq_refl) as [Htrace Hobj].
    split; [exact Hok|]. split; [rewrite Hwarn; reflexivity|].
    split; [exact Htrace|exact Hobj].
  - destruct (destructor_never_throws (scripted_runtime destroy_refused) test_check_what
                64 (one_manager warm []) warm eq_refl)
      as (Hok & _ & _ & _ & _ & Hwarn & _).
    split; [exact Hok|]. rewrite Hwarn. reflexivity.
  - destruct (destructor_never_throws (scripted_runtime benign) test_check_what
                64 (one_manager warm []) warm eq_refl)
      as (Hok & _ & _ & _ & _ & _ & _ & Hrelease).
    destruct (Hrelease cudaSuccess 0%N cudaSuccess 0%N eq_refl eq_refl)
      as [Htrace Hobj].
    split; [exact Hok|]. split; [exact Htrace|exact Hobj].
Defined.

(** * The further properties on concrete runs *)

Lemma capture_guard_skipped_witness :
  let rt := answering (failing (fun _ => false) cudaSuccess) stream_65_captured in
  let run := capture_guard rt 64 65 (one_manager warm []) in
  fst run = Ok None /\
  heap (snd run) = heap (one_manager warm []) /\
  s_current_captures (thread (snd run)) = [] /\
  api_calls (thread (snd run)) = [(StreamIsCapturing 65, cudaSuccess)].
Proof.
  intros rt run. subst run. split; [reflexivity|].
  destruct (capture_guard_skipped rt 64 65 (one_manager warm []) warm eq_refl eq_refl)
    as (Hheap & Hstack & _ & _).
  split; [exact Hheap|]. split; [exact Hstack|reflexivity].
Defined.

Lemma capture_guard_steps_aside_witness :
  let busy := answering (failing (fun _ => false) cudaSuccess) stream_65_captured in
  let implicit :=
    answering (failing (query_on cudaStreamLegacy) cudaErrorStreamCaptureImplicit)
      nothing_captured in
  fst (capture_guard busy 64 65 (one_manager warm [])) = Ok None /\
  fst (capture_guard implicit 64 65 (one_manager warm [])) = Ok None /\
  api_calls (thread (snd (capture_guard implicit 64 65 (one_manager warm [])))) =
    [(StreamIsCapturing 65, cudaSuccess);
     (StreamIsCapturing cudaStreamLegacy, cudaErrorStreamCaptureImplicit)].
Proof.
  intros busy implicit. split; [|split].
  - destruct (capture_guard_steps_aside busy 64 65 (one_manager warm []) warm
                cudaStreamCaptureStatusActive 0%N) as [Hskip _];
      [reflexivity|discriminate|discriminate|reflexivity|].
    by rewrite Hskip.
  - destruct (capture_guard_steps_aside implicit 64 65 (one_manager warm []) warm
                cudaStreamCaptureStatusNone 0%N) as [_ Hskip];
      [reflexivity|discriminate|discriminate|reflexivity|].
    rewrite (Hskip cudaErrorStreamCaptureImplicit cudaStreamCaptureStatusNone 0%N);
      [reflexivity|reflexivity|reflexivity|by left].
  - destruct (capture_guard_steps_aside implicit 64 65 (one_manager warm []) warm
                cudaStreamCaptureStatusNone 0%N) as [_ Hskip];
      [reflexivity|discriminate|discriminate|reflexivity|].
    rewrite (Hskip cudaErrorStreamCaptureImplicit cudaStreamCaptureStatusNone 0%N);
      [reflexivity|reflexivity|reflexivity|by left].
Defined.

Lemma capture_guard_query_failed_witness :
  let first := answering (failing (query_on 65) 999) nothing_captured in
  let second := answering (failing (query_on cudaStreamLegacy) 999) nothing_captured in
  fst (capture_guard first 64 65 (one_manager warm [])) =
    Throw (cuda_check_error "cudaStreamIsCapturing(stream, &capture_status)" 999) /\
  fst (capture_guard second 64 65 (one_manager warm [])) =
    Throw (cuda_check_error "capture_result" 999) /\
  heap (snd (capture_guard second 64 65 (one_manager warm []))) !! 64%N = Some warm.
Proof.
  intros first second.
  destruct (capture_guard_query_failed first 64 65 (one_manager warm []) warm
              999 cudaStreamCaptureStatusNone 0)%N as [Hfirst _];
    [reflexivity|discriminate|discriminate|reflexivity|].
  destruct (capture_guard_query_failed second 64 65 (one_manager warm []) warm
              cudaSuccess cudaStreamCaptureStatusNone 0)%N as [_ Hsecond];
    [reflexivity|discriminate|discriminate|reflexivity|].
  rewrite Hfirst by discriminate.
  rewrite (Hsecond 999 cudaStreamCaptureStatusNone 0)%N;
    [|reflexivity|reflexivity|reflexivity|discriminate|discriminate].
  by repeat split.
Defined.

Lemma capture_guard_destroy_failed_witness :
  let run := capture_guard (scripted_runtime destroy_refused) 64 65 (one_manager warm []) in
  fst run = Throw (cuda_check_error "cudaGraphDestroy(m_graph)" 719) /\
  heap (snd run) !! 64%N = Some warm /\
  s_current_captures (thread (snd run)) = [].
Proof.
  intros run. subst run.
  rewrite (capture_guard_destroy_failed (scripted_runtime destroy_refused) 64 65
             (one_manager warm []) warm 0 0 719 0)%N;
    [|reflexivity|discriminate|discriminate|reflexivity|reflexivity|discriminate
     |reflexivity|discriminate].
  by repeat split.
Defined.

Lemma capture_guard_frame_witness :
  let w' := snd (capture_guard (scripted_runtime benign) 64 65 (one_manager warm [])) in
  heap (one_manager warm []) !! 64%N = Some warm /\
  exists o', heap w' !! 64%N = Some o' /\ m_graph_instance o' = 20%N.
Proof.
  intros w'. split; [reflexivity|].
  destruct (capture_guard_frame (scripted_runtime benign) 64 65 (one_manager warm [])
              warm eq_refl) as ((o' & Hl & He & _) & _).
  exists o'. split; [exact Hl|exact He].
Defined.

Lemma capture_guard_throws_witness :
  let run := capture_guard (scripted_runtime begin_refused) 64 65 (one_manager warm []) in
  heap (one_manager warm []) !! 64%N = Some warm /\
  exists expr r c new,
    fst run = Throw (cuda_check_error expr r) /\ r <> cudaSuccess /\
    api_calls (thread (snd run)) = new ++ [(c, r)].
Proof.
  intros run. subst run. split; [reflexivity|].
  destruct (capture_guard_throws (scripted_runtime begin_refused) 64 65
              (one_manager warm []) warm _ eq_refl eq_refl)
    as (expr & r & c & new & He & Hr & Htrace & _).
  exists expr, r, c, new. split; [by rewrite <- He|]. split; [exact Hr|exact Htrace].
Defined.

Lemma current_capture_after_capture_guard_witness :
  let rt := scripted_runtime benign in
  current_capture (thread (snd (capture_guard rt 64 65 (two_managers [])))) = 64%N /\
  current_capture (thread (snd (capture_guard rt 64 65 (two_managers [128%N])))) = 128%N.
Proof.
  intros rt. split.
  - exact (current_capture_after_capture_guard rt 64 65 (two_managers [])
             CudaGraph_new eq_refl).
  - exact (current_capture_after_capture_guard rt 64 65 (two_managers [128%N])
             CudaGraph_new eq_refl).
Defined.

Lemma finalize_end_capture_failed_witness :
  let rt := answering (failing end_capture_call 901) nothing_captured in
  let run := finalize rt 64 65 (one_manager (recording true) [64%N]) in
  fst run = Throw (cuda_check_error "cudaStreamEndCapture(stream, &m_graph)" 901) /\
  s_current_captures (thread (snd run)) = [64%N] /\
  heap (snd run) !! 64%N = Some (with_m_graph 17 (recording true)).
Proof.
  intros rt run. subst run.
  rewrite (finalize_end_capture_failed rt 64 65 (one_manager (recording true) [64%N])
             (recording true) 901 17 1)%N; [|reflexivity|reflexivity|discriminate].
  by repeat split.
Defined.

Lemma finalize_first_instance_witness :
  let w := one_manager CudaGraph_new [64%N] in
  let built := finalize (scripted_runtime benign) 64 65 w in
  let refused :=
    finalize (answering (failing instantiate_call 2) nothing_captured) 64 65 w in
  (fst built = Ok tt /\
   api_calls (thread (snd built)) =
     [(StreamEndCapture 65, cudaSuccess); (GraphInstantiate 17, cudaSuccess);
      (GraphLaunch 20 65, cudaSuccess)]) /\
  (fst refused =
     Throw (cuda_check_error
              "cudaGraphInstantiate(&m_graph_instance, m_graph, NULL, NULL, 0)" 2) /\
   api_calls (thread (snd refused)) =
     [(StreamEndCapture 65, cudaSuccess); (GraphInstantiate 17, 2%N)]).
Proof.
  intros w built refused. subst built refused. split.
  - destruct (finalize_first_instance (scripted_runtime benign) 64 65 w CudaGraph_new
                17 1 1 cudaSuccess 20 2)%N as (_ & _ & _ & Hbuilt);
      [reflexivity|reflexivity|reflexivity|discriminate|reflexivity|reflexivity
      |reflexivity|].
    destruct (Hbuilt cudaSuccess 2%N eq_refl eq_refl) as [Htrace Hok].
    split; [by apply Hok|exact Htrace].
  - destruct (finalize_first_instance
                (answering (failing instantiate_call 2) nothing_captured) 64 65 w
                CudaGraph_new 17 1 1 2 20 2)%N as (_ & _ & Hrefused & _);
      [reflexivity|reflexivity|reflexivity|discriminate|reflexivity|reflexivity
      |reflexivity|].
    apply Hrefused. discriminate.
Defined.

Lemma finalize_synchronize_failed_witness :
  let rt := answering (failing synchronize_call 719) nothing_captured in
  let run := finalize rt 64 65 (one_manager (recording true) [64%N]) in
  fst run = Throw (cuda_check_error "cudaDeviceSynchronize()" 719) /\
  s_current_captures (thread (snd run)) = [] /\
  heap (snd run) !! 64%N = Some (with_m_graph 17 (recording true)).
Proof.
  intros rt run. subst run.
  rewrite (finalize_synchronize_failed rt 64 65 (one_manager (recording true) [64%N])
             (recording true) 17 1 719 1)%N;
    [|reflexivity|reflexivity|reflexivity|reflexivity|reflexivity|discriminate].
  by repeat split.
Defined.

Lemma finalize_returns_witness :
  let w := one_manager (recording true) [64%N] in
  let w' := snd (finalize (scripted_runtime benign) 64 65 w) in
  fst (finalize (scripted_runtime benign) 64 65 w) = Ok tt /\
  s_current_captures (thread w') = [] /\
  exists o', heap w' !! 64%N = Some o' /\ m_synchronize_when_capture_done o' = false.
Proof.
  intros w w'. split; [reflexivity|].
  destruct (finalize_returns (scripted_runtime benign) 64 65 w (recording true)
              eq_refl eq_refl) as (_ & Hpop & o' & new & Hl & Hflag & _).
  split; [exact Hpop|]. exists o'. split; [exact Hl|exact Hflag].
Defined.

Lemma finalize_throws_witness :
  let run := finalize (scripted_runtime benign) 64 65 (two_managers [64; 128]%N) in
  fst run = Throw ordering_violation /\
  api_calls (thread (snd run)) = [(StreamEndCapture 65, cudaSuccess)].
Proof.
  intros run. subst run. split; [reflexivity|].
  destruct (finalize_throws (scripted_runtime benign) 64 65 (two_managers [64; 128]%N)
              CudaGraph_new ordering_violation eq_refl eq_refl)
    as [(_ & _ & Htrace)|(expr & r & _ & _ & He & _)].
  - exact Htrace.
  - discriminate He.
Defined.

Lemma finalize_never_witness :
  let w := one_manager (recording true) [64%N] in
  let w' := snd (finalize (scripted_runtime update_refused) 64 65 w) in
  heap w !! 64%N = Some (recording true) /\
  warnings (thread w') = [] /\
  exists new, api_calls (thread w') = new /\ count is_launch new <= 1.
Proof.
  intros w w'. split; [reflexivity|].
  destruct (finalize_never (scripted_runtime update_refused) 64 65 w (recording true)
              eq_refl) as (Hw & new & Htrace & _ & _ & _ & _ & _ & Hlaunch).
  split; [exact Hw|]. exists new. split; [exact Htrace|exact Hlaunch].
Defined.

Lemma current_capture_after_finalize_witness :
  let rt := scripted_runtime benign in
  current_capture (thread (snd (finalize rt 64 65 (two_managers [64%N])))) = nullptr /\
  current_capture (thread (snd (finalize rt 128 129 (two_managers [64; 128]%N)))) = 64%N.
Proof.
  intros rt. split.
  - exact (current_capture_after_finalize rt 64 65 (two_managers [64%N])
             CudaGraph_new eq_refl eq_refl).
  - exact (current_capture_after_finalize rt 128 129 (two_managers [64; 128]%N)
             CudaGraph_new eq_refl eq_refl).
Defined.

Lemma reset_graph_destroy_failed_witness :
  let run := reset (scripted_runtime shutting_down) 64 (one_manager warm []) in
  fst run = Throw (cuda_check_error "cudaGraphDestroy(m_graph)" cudaErrorCudartUnloading) /\
  heap (snd run) !! 64%N = Some warm /\
  api_calls (thread (snd run)) = [(GraphDestroy 17, cudaErrorCudartUnloading)].
Proof.
  intros run. subst run.
  rewrite (reset_graph_destroy_failed (scripted_runtime shutting_down) 64
             (one_manager warm []) warm cudaErrorCudartUnloading 0%N);
    [|reflexivity|discriminate|reflexivity|discriminate].
  by repeat split.
Defined.

Lemma reset_run_witness :
  let run := reset (scripted_runtime benign) 64 (one_manager warm [64%N]) in
  fst run = Ok tt /\
  heap (snd run) !! 64%N = Some CudaGraph_new /\
  s_current_captures (thread (snd run)) = [64%N] /\
  api_calls (thread (snd run)) =
    [(GraphDestroy 17, cudaSuccess); (GraphExecDestroy 20, cudaSuccess)].
Proof.
  intros run. subst run.
  rewrite (reset_run (scripted_runtime benign) 64 (one_manager warm [64%N]) warm
             0 cudaSuccess 0)%N; [|reflexivity..].
  by repeat split.
Defined.

Lemma schedule_synchronize_idempotent_witness :
  heap (snd (schedule_synchronize 64 (one_manager warm []))) !! 64%N =
    Some (with_m_synchronize true warm) /\
  (schedule_synchronize 64 ;; schedule_synchronize 64) (one_manager warm []) =
    schedule_synchronize 64 (one_manager warm []).
Proof.
  destruct (schedule_synchronize_idempotent 64 (one_manager warm []))
    as (_ & Hset & _ & Htwice).
  split; [|exact Htwice]. by apply Hset.
Defined.

Lemma capture_scope_restores_stack_witness :
  let rt := scripted_runtime benign in
  fst (capture_scope rt 64 65 (two_managers [128%N])) = Ok tt /\
  s_current_captures (thread (snd (capture_scope rt 64 65 (two_managers [128%N])))) =
    [128%N].
Proof.
  intros rt.
  destruct (capture_scope_restores_stack rt 64 65 (two_managers [128%N]) CudaGraph_new)
    as (inside & _ & _ & Hok & Hstack);
    [apply benign_permissive|reflexivity|discriminate|discriminate|].
  split; [exact Hok|exact Hstack].
Defined.

Lemma destructor_leaves_deque_witness :
  let w := one_manager warm [64%N] in
  let w' := snd (destructor (scripted_runtime shutting_down) test_check_what 64 w) in
  heap w !! 64%N = Some warm /\
  s_current_captures (thread w') = [64%N] /\ current_capture (thread w') = 64%N.
Proof.
  intros w w'. split; [reflexivity|].
  destruct (destructor_leaves_deque (scripted_runtime shutting_down) test_check_what
              64 w warm eq_refl) as (Hst & Hcur & _).
  split; [exact Hst|exact Hcur].
Defined.
